(** * newmonkey: the cache-record decoder and the extraction pipeline

    A shallow embedding of [src/newmonkey/parsing.py]:
    [get_discord_cache_directory], [parse_cache_file],
    [open_and_parse_cache_file], [create_file_from_cache_file],
    [dict_increment] and the result loop of [process_all_files], and of
    [main] in [src/newmonkey/main.py], followed by the properties of the
    decoder, of the workers and of the statistics the pipeline
    accumulates.

    Conventions of the embedding.
    - [bytes] is [list byte]; Python integers that index a buffer are [N]
      (they are never negative here), counters are [nat].
    - A Python [str] is represented by its UTF-8 encoding, as a Rocq
      [string].  The program only splits text at ['/'], searches it for the
      ASCII word [discord] and compares it with ASCII literals; on
      well-formed UTF-8 those operations give the same answer on the code
      points and on the encoding.
    - A raised exception is the [Raise] case of [result]; it carries what
      its message is made of, and [isinstance] follows Python's classes.
    - A path is the list of its parts.  The [/] of [pathlib], which
      differs between linux or darwin and win32, is a variable of the
      section: the pipeline is modelled for any platform.
      [posix_joinpath] is the operator of linux and darwin.
    - The file system is a variable of the section: for each operation it
      says whether it is done or which exception it raises.
    - [magic.from_buffer] is outside the repository: it is a variable of the
      section, any function from bytes to a MIME string. *)

From Stdlib Require Import List NArith ZArith Arith Bool Lia.
From Stdlib.Strings Require Import String Ascii Byte.
From Stdlib Require Import Permutation.
Import ListNotations.

Local Open Scope list_scope.

(** ** Bytes and slices *)

Definition bytes := list byte.

Definition len {A} (l : list A) : N := N.of_nat (List.length l).

(** [drop n l] is [l[n:]] and [take n l] is [l[:n]]; both recurse on the
    list, so that a huge [n] read from a header costs nothing. *)
Fixpoint drop {A} (n : N) (l : list A) : list A :=
  match l with
  | [] => []
  | _ :: t => if (n =? 0)%N then l else drop (N.pred n) t
  end.

Fixpoint take {A} (n : N) (l : list A) : list A :=
  match l with
  | [] => []
  | x :: t => if (n =? 0)%N then [] else x :: take (N.pred n) t
  end.

(** [slice a b l] is [l[a:b]] for non-negative [a] and [b]. *)
Definition slice {A} (a b : N) (l : list A) : list A := take (b - a) (drop a l).

(** [getitem l i] is [l[i]]; the only use is under the loop test, where the
    index is in range. *)
Definition getitem (l : bytes) (i : N) : byte := hd x00 (drop i l).

Fixpoint bytes_eqb (a b : bytes) : bool :=
  match a, b with
  | [], [] => true
  | x :: a', y :: b' => Byte.eqb x y && bytes_eqb a' b'
  | _, _ => false
  end.

(** [startswith data p] is [data.startswith(p)]. *)
Fixpoint startswith (data p : bytes) {struct p} : bool :=
  match p, data with
  | [], _ => true
  | y :: p', x :: data' => Byte.eqb x y && startswith data' p'
  | _ :: _, [] => false
  end.

(** [int.from_bytes(b, byteorder="little")]. *)
Fixpoint from_bytes_little (b : bytes) : N :=
  match b with
  | [] => 0
  | x :: t => Byte.to_N x + 256 * from_bytes_little t
  end%N.

(** The inverse direction, used to build headers: [n.to_bytes(k, "little")]. *)
Definition byte_of_N (n : N) : byte :=
  match Byte.of_N (n mod 256) with Some b => b | None => x00 end.

Fixpoint to_bytes_little (k : nat) (n : N) : bytes :=
  match k with
  | O => []
  | S k' => byte_of_N n :: to_bytes_little k' (n / 256)
  end.

(** ** Exceptions *)

(** The three messages of [InvalidCacheFileFormat] in [parse_cache_file]:
    ["Cache data did not start with expected start prefix."],
    [f"{cache_file_data} does not contain any url."], which quotes the
    whole buffer, and ["End suffix was not found."]. *)
Inductive format_message : Type :=
| NoStartPrefix
| NoUrl (cache_file_data : bytes)
| NoEndSuffix.

(** The messages of a plain [ValueError]: from an unpacking,
    ["not enough values to unpack (expected [at least] n, got m)"] and
    ["too many values to unpack (expected n)"], and from a path,
    ["embedded null byte"]. *)
Inductive value_message : Type :=
| NotEnoughValues (expected got : nat)
| TooManyValues (expected : nat)
| EmbeddedNullByte.

(** An exception: its class and what its message depends on.
    [UnicodeDecodeError] carries the bytes that were being decoded;
    [OSError] stands for an [OSError] of any subclass; [RuntimeError] is
    what [Path.home()] raises when there is no home directory;
    [SystemExit] is how [parse_args] ends the program, with its exit
    code. *)
Inductive exn : Type :=
| InvalidCacheFileFormat (message : format_message)
| UnicodeDecodeError (object : bytes)
| ValueError (message : value_message)
| OSError
| RuntimeError
| SystemExit (code : nat).

(** The classes, with [Exception] above [ValueError] above [UnicodeError]
    above [UnicodeDecodeError], and above [OSError], [RuntimeError] and
    [InvalidCacheFileFormat]; [BaseException] is above [Exception] and
    [SystemExit]. *)
Inductive exn_class : Set :=
| BaseExceptionClass
| SystemExitClass
| ExceptionClass
| ValueErrorClass
| UnicodeErrorClass
| UnicodeDecodeErrorClass
| OSErrorClass
| RuntimeErrorClass
| InvalidCacheFileFormatClass.

Definition class_of (e : exn) : exn_class :=
  match e with
  | InvalidCacheFileFormat _ => InvalidCacheFileFormatClass
  | UnicodeDecodeError _ => UnicodeDecodeErrorClass
  | ValueError _ => ValueErrorClass
  | OSError => OSErrorClass
  | RuntimeError => RuntimeErrorClass
  | SystemExit _ => SystemExitClass
  end.

(** [issubclass(c, d)]. *)
Definition issubclass (c d : exn_class) : bool :=
  match d, c with
  | BaseExceptionClass, _ => true
  | SystemExitClass, SystemExitClass => true
  | ExceptionClass, (BaseExceptionClass | SystemExitClass) => false
  | ExceptionClass, _ => true
  | ValueErrorClass,
    (ValueErrorClass | UnicodeErrorClass | UnicodeDecodeErrorClass) => true
  | UnicodeErrorClass, (UnicodeErrorClass | UnicodeDecodeErrorClass) => true
  | UnicodeDecodeErrorClass, UnicodeDecodeErrorClass => true
  | OSErrorClass, OSErrorClass => true
  | RuntimeErrorClass, RuntimeErrorClass => true
  | InvalidCacheFileFormatClass, InvalidCacheFileFormatClass => true
  | _, _ => false
  end.

(** [isinstance(e, c)], which is how an [except c] clause selects. *)
Definition isinstance (e : exn) (c : exn_class) : bool :=
  issubclass (class_of e) c.

Inductive result (A : Type) : Type :=
| Ok (a : A)
| Raise (e : exn).
Arguments Ok {A} a.
Arguments Raise {A} e.

Definition bind {A B} (m : result A) (k : A -> result B) : result B :=
  match m with
  | Ok a => k a
  | Raise e => Raise e
  end.

Notation "x <- m ;; k" := (bind m (fun x => k))
  (at level 61, m at next level, right associativity).
Notation "' p <- m ;; k" := (bind m (fun x => let p := x in k))
  (at level 61, p pattern, m at next level, right associativity).

(** ** Text *)

(** Well-formed UTF-8, the byte ranges [bytes.decode()] accepts in strict
    mode: no overlong form, no surrogate, nothing above U+10FFFF. *)
Definition between (lo hi : N) (b : byte) : bool :=
  ((lo <=? Byte.to_N b) && (Byte.to_N b <=? hi))%N.

Definition continuation (b : byte) : bool := between 128 191 b.

Fixpoint utf8_valid (l : bytes) : bool :=
  match l with
  | [] => true
  | b0 :: t =>
    if between 0 127 b0 then utf8_valid t
    else if between 194 223 b0 then
      match t with
      | b1 :: t' => continuation b1 && utf8_valid t'
      | _ => false
      end
    else if between 224 239 b0 then
      match t with
      | b1 :: b2 :: t' =>
        (if Byte.eqb b0 xe0 then between 160 191 b1
         else if Byte.eqb b0 xed then between 128 159 b1
         else continuation b1)
        && continuation b2 && utf8_valid t'
      | _ => false
      end
    else if between 240 244 b0 then
      match t with
      | b1 :: b2 :: b3 :: t' =>
        (if Byte.eqb b0 xf0 then between 144 191 b1
         else if Byte.eqb b0 xf4 then between 128 143 b1
         else continuation b1)
        && continuation b2 && continuation b3 && utf8_valid t'
      | _ => false
      end
    else false
  end.

(** [b.decode()]. *)
Definition decode (b : bytes) : result string :=
  if utf8_valid b then Ok (string_of_list_byte b)
  else Raise (UnicodeDecodeError b).

(** [s.split(sep, maxsplit)] for a one-character separator and
    [maxsplit >= 0]: cut at the first [maxsplit] separators. *)
Fixpoint split (sep : ascii) (s : string) (maxsplit : nat) {struct s}
  : list string :=
  match maxsplit with
  | O => [s]
  | S m =>
    match s with
    | EmptyString => [EmptyString]
    | String c t =>
      if Ascii.eqb c sep then EmptyString :: split sep t m
      else match split sep t (S m) with
           | h :: r => String c h :: r
           | [] => [String c EmptyString]
           end
    end
  end.

(** [s.split(sep)]: no limit; a string has at most [length s] separators. *)
Definition split_all (sep : ascii) (s : string) : list string :=
  split sep s (String.length s).

(** [needle in hay]. *)
Fixpoint contains (needle hay : string) : bool :=
  String.prefix needle hay ||
  match hay with
  | EmptyString => false
  | String _ t => contains needle t
  end.

(** ** The record format *)

Definition END_SUFFIX : bytes :=
  [x41; x0d; x97; x45; x6f; xfa; xf4; x01; x00; x00; x00].
Definition START_SUFFIX : bytes :=
  [x30; x5c; x72; xa7; x1b; x6d; xfb; xfc].

(** The state of the scanning loop of [parse_cache_file]. *)
Record scan : Type := Scan {
  acc : bytes;
  index : N;
  end_suffix_found : bool
}.

Definition loop_test (cache_file_data : bytes) (s : scan) : bool :=
  (index s + len END_SUFFIX <? len cache_file_data)%N
  && negb (end_suffix_found s).

Definition loop_body (cache_file_data : bytes) (s : scan) : scan :=
  let current_byte := getitem cache_file_data (index s) in
  let found :=
    bytes_eqb (slice (index s) (index s + len END_SUFFIX) cache_file_data)
              END_SUFFIX in
  {| acc := if found then acc s else acc s ++ [current_byte];
     index := index s + 1;
     end_suffix_found := found |}.

(** [while test: body], run for at most [fuel] rounds. *)
Fixpoint while (fuel : nat) (test : scan -> bool) (body : scan -> scan)
  (s : scan) : scan :=
  match fuel with
  | O => s
  | S fuel' => if test s then while fuel' test body (body s) else s
  end.

(** Every round moves [index] one byte forward and the test fails once
    [index + 11] reaches the length, so [length cache_file_data] rounds
    always finish the loop (lemma [scan_loop_finished] below). *)
Definition scan_loop (cache_file_data : bytes) (data_start : N) : scan :=
  while (List.length cache_file_data)
        (loop_test cache_file_data) (loop_body cache_file_data)
        {| acc := []; index := data_start; end_suffix_found := false |}.

Section Decoder.

(** [magic.from_buffer(_, mime=True)], the content-type sniffer. *)
Variable magic : bytes -> string.

Definition parse_cache_file (cache_file_data : bytes)
  : result (bytes * string * option string * string) :=
  if negb (startswith cache_file_data START_SUFFIX)
  then Raise (InvalidCacheFileFormat NoStartPrefix)
  else
    let offset := from_bytes_little (slice 12 16 cache_file_data) in
    let data_start := (24 + offset)%N in
    origin_url <- decode (slice 28 data_start cache_file_data) ;;
    if String.eqb origin_url EmptyString
    then Raise (InvalidCacheFileFormat (NoUrl cache_file_data))
    else
      match split "/" origin_url 4 with
      | _http :: _empty :: domain :: datakind :: _leftover =>
        let datakind :=
          if negb (contains "discord" domain) || String.eqb datakind "api"
          then None else Some datakind in
        let s := scan_loop cache_file_data data_start in
        if negb (end_suffix_found s)
        then Raise (InvalidCacheFileFormat NoEndSuffix)
        else
          let output := acc s in
          Ok (output, domain, datakind, magic output)
      | pieces => Raise (ValueError (NotEnoughValues 4 (List.length pieces)))
      end.

End Decoder.

(** ** Paths and the effects on the output tree *)

(** A [pathlib.Path] as the tuple of its [parts]. *)
Definition Path := list string.

(** [p / s] depends on the platform: [pathlib.Path] is a [PosixPath] on
    linux and darwin and a [WindowsPath] on win32, which also splits at a
    backslash and reads a drive.  The program is modelled for any such
    operator, [joinpath] below; [posix_joinpath] is the one of linux and
    darwin for an operand without a ['/']: an empty operand and a ["."]
    operand are dropped, any other is appended as one component.  Every
    operand the program uses is free of ['/']: a piece of a string split
    at ['/'], or a file name. *)
Definition posix_joinpath (p : Path) (s : string) : Path :=
  if String.eqb s EmptyString || String.eqb s "." then p else p ++ [s].

(** What a worker does to the file system, in program order. *)
Inductive fs_op : Type :=
| Mkdir (p : Path)                      (* mkdir(parents=True, exist_ok=True) *)
| Touch (p : Path)
| WriteBytes (p : Path) (data : bytes).

(** One entry of the cache directory, as [os.listdir], [is_file] and [open]
    see it; [contents = None] is a file that cannot be opened or read. *)
Record entry : Type := Entry {
  name : string;
  is_file : bool;
  contents : option bytes
}.

(** ** The statistics *)

(** A Python [dict] from [str | None] to [int], in insertion order. *)
Definition dict := list (option string * nat).

Definition key_eqb (a b : option string) : bool :=
  match a, b with
  | None, None => true
  | Some x, Some y => String.eqb x y
  | _, _ => false
  end.

(** [d.get(key)]. *)
Fixpoint dict_get (d : dict) (key : option string) : option nat :=
  match d with
  | [] => None
  | (k, v) :: d' => if key_eqb k key then Some v else dict_get d' key
  end.

(** [key in d.keys()]. *)
Definition dict_in (d : dict) (key : option string) : bool :=
  match dict_get d key with Some _ => true | None => false end.

(** [d[key] = v]: an existing key keeps its place, a new one goes last. *)
Fixpoint dict_set (d : dict) (key : option string) (v : nat) : dict :=
  match d with
  | [] => [(key, v)]
  | (k, w) :: d' =>
    if key_eqb k key then (k, v) :: d' else (k, w) :: dict_set d' key v
  end.

(** [d[key]] where the key is present ([dict_increment] reads it only after
    it has stored it). *)
Definition dict_item (d : dict) (key : option string) : nat :=
  match dict_get d key with Some v => v | None => 0 end.

Definition dict_increment (d : dict) (key : option string) : dict :=
  let d := if negb (dict_in d key) then dict_set d key 0 else d in
  dict_set d key (dict_item d key + 1).

(** The variables the result loop of [process_all_files] updates. *)
Record stats : Type := Stats {
  types : dict;
  domains : dict;
  sorted_count : nat;
  loop_index : nat
}.

Definition initial_stats : stats :=
  {| types := []; domains := []; sorted_count := 0; loop_index := 0 |}.

(** One round of [for index, (domain, mime_type) in enumerate(results)];
    [i] is the value [enumerate] gives [index]. *)
Definition consume (st : stats) (i : nat)
  (r : option string * option string) : stats :=
  let '(domain, mime_type) := r in
  {| sorted_count :=
       sorted_count st + (match mime_type with Some _ => 1 | None => 0 end);
     types := dict_increment (types st) mime_type;
     domains := dict_increment (domains st) domain;
     loop_index := i |}.

Fixpoint consume_from (st : stats) (i : nat)
  (results : list (option string * option string)) : stats :=
  match results with
  | [] => st
  | r :: rest => consume_from (consume st i r) (S i) rest
  end.

(** The loop over results that all arrived. *)
Definition aggregate (results : list (option string * option string)) : stats :=
  consume_from initial_stats 0 results.

(** What the file system can answer to an operation instead of doing it:
    [ValueError("embedded null byte")] or an [OSError]. *)
Inductive fault : Set :=
| NullByte
| OsFault.

Definition exn_of_fault (f : fault) : exn :=
  match f with
  | NullByte => ValueError EmbeddedNullByte
  | OsFault => OSError
  end.

(** The operations of [ops] in order, up to the first one the file system
    refuses: those done, and the exception if one was refused. *)
Fixpoint perform (file_system : fs_op -> option fault) (ops : list fs_op)
  : list fs_op * result unit :=
  match ops with
  | [] => ([], Ok tt)
  | op :: rest =>
    match file_system op with
    | Some f => ([], Raise (exn_of_fault f))
    | None =>
      let '(done, r) := perform file_system rest in (op :: done, r)
    end
  end.

Section Pipeline.

Variable magic : bytes -> string.

(** The answer of the file system to an operation: [None] when it is done,
    or what it raises.  The answer is taken to depend on the operation
    only (a null byte or an over-long name in the path, a directory that
    may not be written). *)
Variable file_system : fs_op -> option fault.

(** The [/] of [pathlib.Path] on the platform of the run. *)
Variable joinpath : Path -> string -> Path.

Notation "p // s" := (joinpath p s) (at level 40, left associativity).

Definition open_and_parse_cache_file (cache_filepath : entry)
  : result (bytes * string * option string * string) :=
  match contents cache_filepath with
  | Some data => parse_cache_file magic data
  | None => Raise OSError
  end.

(** The worker.  It returns what it did to the output tree together with
    its value or the exception that leaves it. *)
Definition create_file_from_cache_file (all_files : bool) (root : Path)
  (cache_filepath : entry)
  : list fs_op * result (option string * option string) :=
  match open_and_parse_cache_file cache_filepath with
  | Raise e =>
    if isinstance e InvalidCacheFileFormatClass then ([], Ok (None, None))
    else ([], Raise e)
  | Ok (raw_data, domain, kind, mime_type) =>
    match split_all "/" mime_type with
    | [category; extension] =>
      if negb (String.eqb category "image") && negb all_files
      then ([], Ok (None, None))
      else
        let category_path :=
          match kind with
          | None => root // category // "other" // domain
          | Some kind => root // category // kind
          end in
        let full_path :=
          category_path // (name cache_filepath ++ "." ++ extension)%string in
        let '(done, r) :=
          perform file_system
            [Mkdir category_path; Touch full_path;
             WriteBytes full_path raw_data] in
        (done, _ <- r ;; Ok (Some domain, Some mime_type))
    | ([] | [_]) as pieces =>
      ([], Raise (ValueError (NotEnoughValues 2 (List.length pieces))))
    | _ => ([], Raise (ValueError (TooManyValues 2)))
    end
  end.

(** [list(results)] for the iterator of [imap_unordered]: the values in
    arrival order, or the exception of the first task that raised. *)
Fixpoint collect {A} (results : list (result A)) : result (list A) :=
  match results with
  | [] => Ok []
  | r :: rest => a <- r ;; l <- collect rest ;; Ok (a :: l)
  end.

(** What a run leaves behind: the length of the listing, the loop
    variables, and the effects of the workers. *)
Record run : Type := Run {
  files_count : nat;
  final : stats;
  effects : list fs_op
}.

(** [files] is [os.listdir(discord_cache_directory)]; [completed] is the
    order in which the pool hands the tasks back, some arrangement of the
    regular files of [files].  A task that raised makes the iteration over
    the results raise, which leaves [process_all_files]. *)
Definition process_all_files (all_files : bool) (dump_directory : Path)
  (files completed : list entry) : result run :=
  let to_cache_dump := create_file_from_cache_file all_files dump_directory in
  let tasks := map to_cache_dump completed in
  results <- collect (map snd tasks) ;;
  Ok {| files_count := List.length files;
        final := aggregate results;
        effects := List.concat (map fst tasks) |}.

(** The arrival orders the pool can produce for a listing. *)
Definition completion_of (files completed : list entry) : Prop :=
  Permutation (filter is_file files) completed.

End Pipeline.

(** ** Notions used to state the properties *)

(** The URL part of [parse_cache_file], from the length field to the data
    kind, on its own: the data start, the domain and the kind, or the
    exception raised before the scan. *)
Definition parse_origin (cache_file_data : bytes)
  : result (N * string * option string) :=
  let offset := from_bytes_little (slice 12 16 cache_file_data) in
  let data_start := (24 + offset)%N in
  origin_url <- decode (slice 28 data_start cache_file_data) ;;
  if String.eqb origin_url EmptyString
  then Raise (InvalidCacheFileFormat (NoUrl cache_file_data))
  else
    match split "/" origin_url 4 with
    | _http :: _empty :: domain :: datakind :: _leftover =>
      let datakind :=
        if negb (contains "discord" domain) || String.eqb datakind "api"
        then None else Some datakind in
      Ok (data_start, domain, datakind)
    | pieces => Raise (ValueError (NotEnoughValues 4 (List.length pieces)))
    end.

(** Whether the end suffix sits at offset [i] of [region]. *)
Definition marker_at (region : bytes) (i : N) : bool :=
  bytes_eqb (slice i (i + len END_SUFFIX) region) END_SUFFIX.

(** The loop seen from the bytes still ahead of [index]: [Some] of the
    accumulated bytes when the suffix is found, [None] when the test stops
    the loop first. *)
Fixpoint scan_rest (rest acc : bytes) : option bytes :=
  match rest with
  | [] => None
  | b :: t =>
    if (len END_SUFFIX <? len rest)%N then
      if bytes_eqb (take (len END_SUFFIX) rest) END_SUFFIX then Some acc
      else scan_rest t (acc ++ [b])
    else None
  end.

(** [c in s]. *)
Fixpoint in_string (c : ascii) (s : string) : bool :=
  match s with
  | EmptyString => false
  | String c' t => Ascii.eqb c' c || in_string c t
  end.

(** The first four ['/']-delimited segments of a URL: [url] is
    [s0/s1/s2/s3] or [s0/s1/s2/s3/...], no segment holding a ['/']. *)
Definition segments (url s0 s1 s2 s3 : string) : Prop :=
  in_string "/" s0 = false /\ in_string "/" s1 = false
  /\ in_string "/" s2 = false /\ in_string "/" s3 = false
  /\ exists rest,
       url = (s0 ++ "/" ++ s1 ++ "/" ++ s2 ++ "/" ++ s3 ++ rest)%string
       /\ (rest = EmptyString \/ exists r, rest = String "/" r).

(** [needle in hay], for bytes. *)
Fixpoint bytes_in (needle hay : bytes) : bool :=
  startswith hay needle ||
  match hay with
  | [] => false
  | _ :: t => bytes_in needle t
  end.

(** The first 28 bytes of a record: the start marker, zeros up to offset
    12, the length field, and twelve reserved bytes. *)
Definition header (url_length : N) (reserved : bytes) : bytes :=
  START_SUFFIX ++ repeat x00 4 ++ to_bytes_little 4 url_length ++ reserved.

(** A record built by hand; [trailing] is what follows the end marker. *)
Definition synthetic (url_length : N) (reserved url_bytes payload_bytes
  trailing : bytes) : bytes :=
  header url_length reserved ++ url_bytes ++ payload_bytes ++ END_SUFFIX
  ++ trailing.

(** Two dictionaries are the same mapping ([==] on Python dicts) when every
    key has the same value, or is absent, in both. *)
Definition dict_eq (d1 d2 : dict) : Prop :=
  forall key, dict_get d1 key = dict_get d2 key.

(** The same statistics, whatever the order in which keys were first seen. *)
Definition stats_eq (s1 s2 : stats) : Prop :=
  dict_eq (types s1) (types s2)
  /\ dict_eq (domains s1) (domains s2)
  /\ sorted_count s1 = sorted_count s2.

(** The files an effect log writes, with their bytes. *)
Fixpoint written (ops : list fs_op) : list (Path * bytes) :=
  match ops with
  | [] => []
  | WriteBytes p data :: rest => (p, data) :: written rest
  | _ :: rest => written rest
  end.

(** The data kind [parse_cache_file] derives from the third and fourth
    segments. *)
Definition kind_of (domain datakind : string) : option string :=
  if negb (contains "discord" domain) || String.eqb datakind "api"
  then None else Some datakind.

(** Offsets 8-11 and 16-27, which the layout leaves unexplained. *)
Definition reserved_offset (i : nat) : bool :=
  ((8 <=? i) && (i <? 12)) || ((16 <=? i) && (i <? 28)).

(** Two buffers of one length that agree at every other offset. *)
Definition same_outside_reserved (d1 d2 : bytes) : Prop :=
  List.length d1 = List.length d2
  /\ forall i, reserved_offset i = false -> nth_error d1 i = nth_error d2 i.

(** ** Sample data *)

(** A stand-in for the sniffer: PNG by signature, HTML by its first byte. *)
Definition toy_magic (b : bytes) : string :=
  (if startswith b [x89; x50; x4e; x47] then "image/png"
   else if startswith b [x3c] then "text/html"
   else "application/octet-stream")%string.

Definition png_bytes : bytes := [x89; x50; x4e; x47; x0d; x0a; x1a; x0a].
Definition html_bytes : bytes := list_byte_of_string "<html></html>".

Definition attachment_url : string :=
  "https://cdn.discordapp.com/attachments/1/2/cat.png".
Definition tenor_url : string := "https://media.tenor.com/x/y.png".
Definition page_url : string := "https://example.org/index.html".

(** A record with zero reserved bytes and a length field that makes the
    URL end where the payload starts. *)
Definition record (url : string) (payload trailing : bytes) : bytes :=
  synthetic (len (list_byte_of_string url) + 4) (repeat x00 12)
            (list_byte_of_string url) payload trailing.

Definition out_root : Path := ["out"%string].

(** Two file systems: one that accepts everything, and one that refuses a
    path with a null byte in a component ([ValueError]) or with a
    component of more than 255 bytes ([OSError]). *)
Definition accepting : fs_op -> option fault := fun _ => None.

Definition refused_component (c : string) : option fault :=
  if in_string "000"%char c then Some NullByte
  else if 255 <? String.length c then Some OsFault
  else None.

Fixpoint refused_path (p : Path) : option fault :=
  match p with
  | [] => None
  | c :: rest =>
    match refused_component c with
    | Some f => Some f
    | None => refused_path rest
    end
  end.

Definition strict : fs_op -> option fault :=
  fun op =>
    match op with
    | Mkdir p | Touch p | WriteBytes p _ => refused_path p
    end.

(** The three-file directory: a PNG from another host, an HTML page, and a
    record whose first byte was overwritten. *)
Definition png_file : entry :=
  Entry "f_0001" true (Some (record tenor_url png_bytes [x00])).
Definition html_file : entry :=
  Entry "f_0002" true (Some (record page_url html_bytes [x00])).
Definition bad_file : entry :=
  Entry "f_0003" true (Some (x00 :: tl (record tenor_url png_bytes [x00]))).
Definition three_files : list entry := [png_file; html_file; bad_file].

(** Records whose URL cannot be taken apart: one segment only, and a byte
    that is not UTF-8. *)
Definition short_url_file : entry :=
  Entry "f_0004" true (Some (record "a" png_bytes [x00])).
Definition latin1_url_file : entry :=
  Entry "f_0005" true
        (Some (synthetic 5 (repeat x00 12) [xe9] png_bytes [x00])).

(** An HTML page whose host name holds a null byte, which no path can
    hold. *)
Definition nul_page_url : string :=
  ("https://a" ++ String "000" "b/index.html")%string.
Definition nul_page_file : entry :=
  Entry "f_0007" true (Some (record nul_page_url html_bytes [x00])).

(** A header with the length field at zero, so that the URL is empty. *)
Definition empty_url_buffer : bytes := header 0 (repeat x00 12).

(** A buffer with every reserved byte overwritten. *)
Definition scribble (d : bytes) : bytes :=
  take 8 d ++ repeat xff 4 ++ slice 12 16 d ++ repeat xff 12 ++ drop 28 d.

(** ** Further notions *)

(** [s.count(c)]. *)
Fixpoint count_char (c : ascii) (s : string) : nat :=
  match s with
  | EmptyString => 0
  | String c' t => (if Ascii.eqb c' c then 1 else 0) + count_char c t
  end.

(** [keys.count(key)]. *)
Fixpoint count_key (key : option string) (keys : list (option string)) : nat :=
  match keys with
  | [] => 0
  | k :: rest => (if key_eqb k key then 1 else 0) + count_key key rest
  end.

(** [key in keys]. *)
Definition mem_key (keys : list (option string)) (key : option string) : bool :=
  existsb (fun k => key_eqb k key) keys.

(** The distinct keys of a list, each at its first occurrence. *)
Fixpoint distinct (keys : list (option string)) : list (option string) :=
  match keys with
  | [] => []
  | k :: rest => k :: filter (fun x => negb (key_eqb k x)) (distinct rest)
  end.

(** A relative path of at most [n] components, none holding a ['/']. *)
Definition plain_components (n : nat) (comps : list string) : Prop :=
  List.length comps <= n /\ Forall (fun c => in_string "/" c = false) comps.

(** An exception that comes from the file system refusing an operation. *)
Definition refusal (file_system : fs_op -> option fault) (e : exn) : Prop :=
  exists op f, file_system op = Some f /\ e = exn_of_fault f.

(** The numbers of the two closing messages of [process_all_files], as
    Python computes them: [files_count - sorted_count] and
    [files_count - index]. *)
Definition not_exported (r : run) : Z :=
  Z.of_nat (files_count r) - Z.of_nat (sorted_count (final r)).

Definition ignored (r : run) : Z :=
  Z.of_nat (files_count r) - Z.of_nat (loop_index (final r)).

(** ** The entry point *)

Module Main.

(** The parsed command line, with the defaults of [setup_arg_parser]: both
    directories absent, all flags off. *)
Record args : Type := Args {
  out_dir : option Path;
  discord_cache_dir : option Path;
  cpu : nat;
  all_files : bool;
  silent : bool;
  stats : bool
}.

(** What [get_discord_cache_directory] and [main] ask the host, each with
    the exception it can raise instead of answering:
    [parser.parse_args()], which gives the parsed command line or leaves
    with [SystemExit]; [sys.platform]; [Path.home()] and [Path.cwd()];
    [Path.exists]; the [/] of the platform's paths;
    [Path.mkdir(exist_ok=True)] ([None] when the directory is there
    afterwards, or what is raised); and the call of [process_all_files]
    with its six arguments, which returns or raises.  Printing is taken
    to succeed. *)
Record host : Type := Host {
  parse_args : result args;
  platform : string;
  home : result Path;
  cwd : result Path;
  exists_ : Path -> result bool;
  joinpath : Path -> string -> Path;
  mkdir_exist_ok : Path -> option fault;
  call_process_all_files :
    Path -> Path -> nat -> bool -> bool -> bool -> result unit
}.

(** What [main] does, in program order; the call of [process_all_files]
    is one event, with the arguments it is given. *)
Inductive event : Type :=
| PrintNotSupported
| PrintAutodetectionFailed
| PrintUsingCacheFolder (p : Path)
| PrintUsingOutputDirectory (p : Path)
| MkdirExistOk (p : Path)
| ProcessAllFiles (discord_cache_directory dump_directory : Path)
    (cpu_core_to_use : nat) (all_files show_stats silent : bool).

Section Host.

Variable h : host.

Notation "p // s" := (joinpath h p s) (at level 40, left associativity).

Definition get_discord_cache_directory : result (option Path) :=
  home <- home h ;;
  if String.eqb (platform h) "win32" then
    Ok (Some (home // "AppData" // "Roaming" // "discord" // "Cache"))
  else if String.eqb (platform h) "linux" then
    Ok (Some (home // ".config" // "discord" // "Cache" // "Cache_Data"))
  else if String.eqb (platform h) "darwin" then
    Ok (Some (home // "Library" // "Application Support" // "discord"
                   // "Cache"))
  else Ok None.

(** The call of [process_all_files] that ends [main]: after [before], the
    events so far.  [main] returns [None] when the call returns and
    raises what the call raises. *)
Definition main_call (a : args) (before : list event)
  (cache_dir out : Path) : list event * result (option nat) :=
  (before ++ [ProcessAllFiles cache_dir out (cpu a) (all_files a) (stats a)
                (silent a)],
   _ <- call_process_all_files h cache_dir out (cpu a) (all_files a)
          (stats a) (silent a) ;;
   Ok None).

(** The part of [main] after the cache directory is known. *)
Definition main_with (a : args) (cache_dir : Path)
  : list event * result (option nat) :=
  match out_dir a with
  | Some out => main_call a [PrintUsingCacheFolder cache_dir] cache_dir out
  | None =>
    match cwd h with
    | Raise e => ([PrintUsingCacheFolder cache_dir], Raise e)
    | Ok cwd =>
      let out := cwd // "newmonkey_output" in
      match mkdir_exist_ok h out with
      | Some f => ([PrintUsingCacheFolder cache_dir], Raise (exn_of_fault f))
      | None =>
        main_call a
          [PrintUsingCacheFolder cache_dir; MkdirExistOk out;
           PrintUsingOutputDirectory out]
          cache_dir out
      end
    end
  end.

(** The part of [main] after [parse_args] has returned [a]. *)
Definition main_parsed (a : args) : list event * result (option nat) :=
  match discord_cache_dir a with
  | None =>
    match get_discord_cache_directory with
    | Raise e => ([], Raise e)
    | Ok None => ([PrintNotSupported], Ok (Some 1))
    | Ok (Some cache_dir) =>
      match exists_ h cache_dir with
      | Raise e => ([], Raise e)
      | Ok false => ([PrintAutodetectionFailed], Ok (Some 1))
      | Ok true => main_with a cache_dir
      end
    end
  | Some cache_dir => main_with a cache_dir
  end.

(** [main]: its events, and its return value, [Some 1] or [None], or the
    exception that leaves it. *)
Definition main : list event * result (option nat) :=
  match parse_args h with
  | Raise e => ([], Raise e)
  | Ok a => main_parsed a
  end.

End Host.

End Main.

(** ** Slices *)

Lemma drop_0 {A} (l : list A) : drop 0 l = l.
Proof. destruct l; reflexivity. Qed.

Lemma take_0 {A} (l : list A) : take 0 l = [].
Proof. destruct l; reflexivity. Qed.

Lemma drop_succ {A} (n : N) (x : A) (t : list A) :
  drop (N.succ n) (x :: t) = drop n t.
Proof.
  simpl. destruct (N.eqb_spec (N.succ n) 0) as [E|_]; [lia|].
  now rewrite N.pred_succ.
Qed.

Lemma take_succ {A} (n : N) (x : A) (t : list A) :
  take (N.succ n) (x :: t) = x :: take n t.
Proof.
  simpl. destruct (N.eqb_spec (N.succ n) 0) as [E|_]; [lia|].
  now rewrite N.pred_succ.
Qed.

Lemma drop_skipn {A} (l : list A) : forall n, drop n l = skipn (N.to_nat n) l.
Proof.
  induction l as [|x t IH]; intro n.
  - now rewrite skipn_nil.
  - destruct n as [|p] using N.peano_ind; [reflexivity|].
    rewrite drop_succ, N2Nat.inj_succ. apply IH.
Qed.

Lemma take_firstn {A} (l : list A) : forall n, take n l = firstn (N.to_nat n) l.
Proof.
  induction l as [|x t IH]; intro n.
  - now rewrite firstn_nil.
  - destruct n as [|p] using N.peano_ind; [reflexivity|].
    rewrite take_succ, N2Nat.inj_succ. simpl. f_equal. apply IH.
Qed.

Lemma len_app {A} (a b : list A) : len (a ++ b) = (len a + len b)%N.
Proof. unfold len. rewrite length_app. lia. Qed.

Lemma len_cons {A} (x : A) (l : list A) : len (x :: l) = N.succ (len l).
Proof. unfold len. simpl. lia. Qed.

Lemma len_drop {A} (n : N) (l : list A) : len (drop n l) = (len l - n)%N.
Proof. unfold len. rewrite drop_skipn, length_skipn. lia. Qed.

Lemma len_take {A} (n : N) (l : list A) : len (take n l) = N.min n (len l).
Proof. unfold len. rewrite take_firstn, length_firstn. lia. Qed.

Lemma drop_drop {A} (a b : N) (l : list A) : drop a (drop b l) = drop (b + a) l.
Proof.
  rewrite !drop_skipn, skipn_skipn. f_equal. lia.
Qed.

Lemma drop_app_len {A} (a b : list A) : drop (len a) (a ++ b) = b.
Proof.
  unfold len. rewrite drop_skipn, Nat2N.id. 
  rewrite skipn_app, skipn_all, Nat.sub_diag. reflexivity.
Qed.

Lemma take_app_len {A} (a b : list A) : take (len a) (a ++ b) = a.
Proof.
  unfold len. rewrite take_firstn, Nat2N.id.
  rewrite firstn_app, firstn_all, Nat.sub_diag. simpl. apply app_nil_r.
Qed.

Lemma slice_drop {A} (i n : N) (l : list A) :
  slice i (i + n) l = take n (drop i l).
Proof. unfold slice. f_equal. lia. Qed.

Lemma bytes_eqb_eq (a b : bytes) : bytes_eqb a b = true <-> a = b.
Proof.
  revert b. induction a as [|x a IH]; destruct b as [|y b]; simpl;
    try (split; (reflexivity || discriminate)).
  rewrite andb_true_iff, IH. split.
  - intros [E ->]. now apply Byte.byte_dec_bl in E as ->.
  - intros [= -> ->]. split; [now apply Byte.byte_dec_lb|reflexivity].
Qed.

Lemma startswith_app (p t : bytes) : startswith (p ++ t) p = true.
Proof.
  induction p as [|y p IH]; simpl; [reflexivity|].
  rewrite IH, andb_true_r. now apply Byte.byte_dec_lb.
Qed.

Lemma startswith_take (data p : bytes) :
  startswith data p = bytes_eqb (take (len p) data) p.
Proof.
  revert data. induction p as [|y p IH]; intro data.
  - now rewrite take_0.
  - destruct data as [|x data]; [reflexivity|].
    rewrite len_cons, take_succ. simpl. now rewrite IH.
Qed.

(** ** The scanning loop *)

Lemma while_found fuel data s :
  end_suffix_found s = true ->
  while fuel (loop_test data) (loop_body data) s = s.
Proof.
  intro H. destruct fuel; [reflexivity|]. simpl.
  unfold loop_test. now rewrite H, andb_false_r.
Qed.

Lemma drop_cons_inv {A} (i : N) (l : list A) (b : A) (t : list A) :
  drop i l = b :: t -> drop (i + 1) l = t.
Proof.
  intro H. rewrite <- (drop_drop 1 i), H.
  change 1%N with (N.succ 0). now rewrite drop_succ, drop_0.
Qed.

Lemma while_scan_rest data : forall fuel s,
  end_suffix_found s = false ->
  (len data - index s <= N.of_nat fuel)%N ->
  let r := while fuel (loop_test data) (loop_body data) s in
  match scan_rest (drop (index s) data) (acc s) with
  | Some p => end_suffix_found r = true /\ acc r = p
  | None => end_suffix_found r = false
  end.
Proof.
  induction fuel as [|fuel IH]; intros s Hf Hfuel; cbn zeta.
  - simpl. destruct (drop (index s) data) as [|b t] eqn:E; [exact Hf|].
    apply (f_equal len) in E. rewrite len_drop, len_cons in E. lia.
  - cbn [while].
    assert (T : loop_test data s = (index s + len END_SUFFIX <? len data)%N)
      by (unfold loop_test; now rewrite Hf, andb_true_r).
    rewrite T.
    destruct (N.ltb_spec (index s + len END_SUFFIX) (len data)) as [Hlt|Hge].
    + destruct (drop (index s) data) as [|b t] eqn:E.
      { apply (f_equal len) in E. rewrite len_drop in E.
        change (len (@nil byte)) with 0%N in E. lia. }
      cbn [scan_rest]. rewrite <- E, len_drop.
      destruct (N.ltb_spec (len END_SUFFIX) (len data - index s)) as [_|C];
        [|lia].
      unfold loop_body. rewrite slice_drop.
      destruct (bytes_eqb (take (len END_SUFFIX) (drop (index s) data)) END_SUFFIX)
        eqn:Hm.
      * rewrite while_found by reflexivity. simpl. auto.
      * specialize (IH {| acc := acc s ++ [getitem data (index s)];
                          index := index s + 1;
                          end_suffix_found := false |} eq_refl).
        cbn [index acc] in IH.
        rewrite (drop_cons_inv _ _ _ _ E) in IH.
        unfold getitem in *. rewrite E in *. cbn [hd] in *.
        apply IH. lia.
    + destruct (drop (index s) data) as [|b t] eqn:E; [exact Hf|].
      cbn [scan_rest]. rewrite <- E, len_drop.
      destruct (N.ltb_spec (len END_SUFFIX) (len data - index s)) as [C|_];
        [lia|exact Hf].
Qed.

Lemma scan_loop_finished data data_start :
  loop_test data (scan_loop data data_start) = false.
Proof.
  unfold scan_loop.
  assert (G : forall fuel s, (len data - index s <= N.of_nat fuel)%N ->
    loop_test data (while fuel (loop_test data) (loop_body data) s) = false).
  { induction fuel as [|fuel IH]; intros s Hs; simpl.
    - unfold loop_test.
      destruct (N.ltb_spec (index s + len END_SUFFIX) (len data)); [lia|reflexivity].
    - destruct (loop_test data s) eqn:T; [|exact T].
      apply IH. unfold loop_body. cbn [index]. lia. }
  apply G. cbn [index]. unfold len. lia.
Qed.

Lemma scan_loop_rest data data_start :
  match scan_rest (drop data_start data) [] with
  | Some p =>
    end_suffix_found (scan_loop data data_start) = true
    /\ acc (scan_loop data data_start) = p
  | None => end_suffix_found (scan_loop data data_start) = false
  end.
Proof.
  unfold scan_loop.
  apply (while_scan_rest data (List.length data)
           {| acc := []; index := data_start; end_suffix_found := false |});
    [reflexivity|]. cbn [index]. unfold len. lia.
Qed.

Lemma marker_at_0 (region : bytes) :
  marker_at region 0 = bytes_eqb (take (len END_SUFFIX) region) END_SUFFIX.
Proof. unfold marker_at. now rewrite slice_drop, drop_0. Qed.

Lemma marker_at_succ (b : byte) (t : bytes) (i : N) :
  marker_at (b :: t) (N.succ i) = marker_at t i.
Proof. unfold marker_at. now rewrite !slice_drop, drop_succ. Qed.

(** An occurrence of the suffix lies inside the region. *)
Lemma marker_at_len (region : bytes) (i : N) :
  marker_at region i = true -> (i + len END_SUFFIX <= len region)%N.
Proof.
  unfold marker_at. rewrite slice_drop, bytes_eqb_eq. intro H.
  apply (f_equal len) in H. rewrite len_take, len_drop in H.
  change (len END_SUFFIX) with 11%N in *. lia.
Qed.

(** The first occurrence, when at least one byte follows it, is where the
    loop stops, with the bytes before it accumulated. *)
Lemma scan_rest_first : forall (region acc0 : bytes) (i : N),
  marker_at region i = true ->
  (forall k, (k < i)%N -> marker_at region k = false) ->
  (i + len END_SUFFIX < len region)%N ->
  scan_rest region acc0 = Some (acc0 ++ take i region).
Proof.
  induction region as [|b t IH]; intros acc0 i Hi Hfirst Hlen.
  - change (len (@nil byte)) with 0%N in Hlen. lia.
  - cbn [scan_rest].
    destruct (N.ltb_spec (len END_SUFFIX) (len (b :: t))) as [_|C]; [|lia].
    rewrite <- marker_at_0.
    destruct i as [|i] using N.peano_ind.
    + rewrite Hi, take_0, app_nil_r. reflexivity.
    + rewrite (Hfirst 0%N) by lia.
      rewrite marker_at_succ in Hi. rewrite len_cons in Hlen.
      rewrite (IH (acc0 ++ [b]) i Hi); [|intros k Hk|lia].
      * now rewrite take_succ, <- app_assoc.
      * rewrite <- (marker_at_succ b). apply Hfirst. lia.
Qed.

(** Conversely, what the loop accumulated when it stops on the suffix. *)
Lemma scan_rest_Some_inv : forall (region acc0 out : bytes),
  scan_rest region acc0 = Some out ->
  exists i, out = acc0 ++ take i region
    /\ marker_at region i = true
    /\ (forall k, (k < i)%N -> marker_at region k = false)
    /\ (i + len END_SUFFIX < len region)%N.
Proof.
  induction region as [|b t IH]; intros acc0 out H; [discriminate|].
  cbn [scan_rest] in H.
  destruct (N.ltb_spec (len END_SUFFIX) (len (b :: t))) as [Hlt|_];
    [|discriminate].
  rewrite <- marker_at_0 in H.
  destruct (marker_at (b :: t) 0) eqn:M0.
  - injection H as <-. exists 0%N. rewrite take_0, app_nil_r.
    repeat split; auto. intros k Hk. lia.
  - destruct (IH _ _ H) as (i & -> & Mi & Hfirst & Hlen).
    exists (N.succ i). rewrite take_succ, marker_at_succ, len_cons, <- app_assoc.
    repeat split; auto; [|lia].
    intros k Hk. destruct k as [|k] using N.peano_ind; [exact M0|].
    rewrite marker_at_succ. apply Hfirst. lia.
Qed.

(** And when the loop gives up, no occurrence is followed by a byte. *)
Lemma scan_rest_None_inv : forall (region acc0 : bytes),
  scan_rest region acc0 = None ->
  forall i, (i + len END_SUFFIX < len region)%N -> marker_at region i = false.
Proof.
  induction region as [|b t IH]; intros acc0 H i Hi.
  - change (len (@nil byte)) with 0%N in Hi. lia.
  - cbn [scan_rest] in H.
    destruct (N.ltb_spec (len END_SUFFIX) (len (b :: t))) as [_|C]; [|lia].
    rewrite <- marker_at_0 in H.
    destruct (marker_at (b :: t) 0) eqn:M0; [discriminate|].
    destruct i as [|i] using N.peano_ind; [exact M0|].
    rewrite marker_at_succ. apply (IH _ H). rewrite len_cons in Hi. lia.
Qed.

Section DecoderFacts.

Variable magic : bytes -> string.

(** [parse_cache_file] in two steps, the URL part and then the scan, with
    the loop replaced by what it computes. *)
Lemma parse_cache_file_unfold (data : bytes) :
  parse_cache_file magic data =
  if negb (startswith data START_SUFFIX)
  then Raise (InvalidCacheFileFormat NoStartPrefix)
  else
    '(data_start, domain, datakind) <- parse_origin data ;;
    match scan_rest (drop data_start data) [] with
    | Some output => Ok (output, domain, datakind, magic output)
    | None => Raise (InvalidCacheFileFormat NoEndSuffix)
    end.
Proof.
  unfold parse_cache_file, parse_origin.
  destruct (startswith data START_SUFFIX); [|reflexivity]. cbn [negb].
  set (ds := (24 + from_bytes_little (slice 12 16 data))%N).
  destruct (decode (slice 28 ds data)) as [url|e]; [|reflexivity].
  cbn [bind]. destruct (String.eqb url EmptyString); [reflexivity|].
  destruct (split "/" url 4) as [|a [|b [|c [|d l]]]]; try reflexivity.
  cbn [bind]. pose proof (scan_loop_rest data ds) as L.
  destruct (scan_rest (drop ds data) []) as [p|].
  - destruct L as [-> ->]. reflexivity.
  - now rewrite L.
Qed.

Lemma parse_cache_file_first data data_start domain datakind i :
  startswith data START_SUFFIX = true ->
  parse_origin data = Ok (data_start, domain, datakind) ->
  marker_at (drop data_start data) i = true ->
  (forall k, (k < i)%N -> marker_at (drop data_start data) k = false) ->
  (i + len END_SUFFIX < len (drop data_start data))%N ->
  parse_cache_file magic data =
  Ok (take i (drop data_start data), domain, datakind,
      magic (take i (drop data_start data))).
Proof.
  intros Hs Ho Hi Hfirst Hlen.
  rewrite parse_cache_file_unfold, Hs, Ho. cbn [negb bind].
  now rewrite (scan_rest_first _ [] i Hi Hfirst Hlen).
Qed.

Lemma parse_cache_file_Ok_inv data output domain datakind mime_type :
  parse_cache_file magic data = Ok (output, domain, datakind, mime_type) ->
  startswith data START_SUFFIX = true
  /\ mime_type = magic output
  /\ exists data_start i,
       parse_origin data = Ok (data_start, domain, datakind)
       /\ output = take i (drop data_start data)
       /\ marker_at (drop data_start data) i = true
       /\ (forall k, (k < i)%N -> marker_at (drop data_start data) k = false)
       /\ (i + len END_SUFFIX < len (drop data_start data))%N.
Proof.
  rewrite parse_cache_file_unfold.
  destruct (startswith data START_SUFFIX); [|discriminate]. cbn [negb].
  destruct (parse_origin data) as [[[ds dom] kind]|e]; [|discriminate].
  cbn [bind].
  destruct (scan_rest (drop ds data) []) as [p|] eqn:S; [|discriminate].
  intros [= <- <- <- <-].
  destruct (scan_rest_Some_inv _ _ _ S) as (i & -> & Mi & Hfirst & Hlen).
  repeat split; auto. exists ds, i. auto.
Qed.

End DecoderFacts.

(** ** Splitting text *)

Lemma append_empty_r (s : string) : (s ++ EmptyString)%string = s.
Proof. induction s as [|c s IH]; cbn; [reflexivity|now rewrite IH]. Qed.

Lemma split_0 sep s : split sep s 0 = [s].
Proof. destruct s; reflexivity. Qed.

Lemma split_not_nil sep s m : split sep s m <> [].
Proof.
  destruct m; destruct s as [|c t]; simpl; try discriminate.
  destruct (Ascii.eqb c sep); [discriminate|].
  destruct (split sep t (S m)); discriminate.
Qed.

Lemma split_no_sep sep : forall s m,
  in_string sep s = false -> split sep s (S m) = [s].
Proof.
  induction s as [|c t IH]; intros m H; [reflexivity|].
  cbn [in_string] in H. apply orb_false_iff in H as [Hc Ht].
  cbn [split]. rewrite Hc, (IH m Ht). reflexivity.
Qed.

Lemma split_app_sep sep : forall h t m,
  in_string sep h = false ->
  split sep (h ++ String sep t) (S m) = h :: split sep t m.
Proof.
  induction h as [|c h IH]; intros t m H.
  - cbn [append split]. now rewrite Ascii.eqb_refl.
  - cbn [in_string] in H. apply orb_false_iff in H as [Hc Hh].
    cbn [append split]. rewrite Hc, (IH t m Hh). reflexivity.
Qed.

(** The first piece of a split holds no separator; either it is the whole
    string, or the string goes on with a separator and the other pieces. *)
Lemma split_S_inv sep : forall s m h r,
  split sep s (S m) = h :: r ->
  in_string sep h = false
  /\ ((r = [] /\ s = h)
      \/ exists t, s = (h ++ String sep t)%string /\ r = split sep t m).
Proof.
  induction s as [|c t IH]; intros m h r H.
  - injection H as <- <-. split; [reflexivity|left; split; reflexivity].
  - cbn [split] in H. destruct (Ascii.eqb c sep) eqn:Hc.
    + apply Ascii.eqb_eq in Hc as ->. injection H as <- <-.
      split; [reflexivity|]. right. exists t. split; reflexivity.
    + destruct (split sep t (S m)) as [|h' r'] eqn:E;
        [now apply split_not_nil in E|].
      injection H as <- <-.
      destruct (IH _ _ _ E) as [Hh [[-> ->]|(t' & -> & ->)]].
      * split; [cbn [in_string]; now rewrite Hc, Hh|].
        left. split; reflexivity.
      * split; [cbn [in_string]; now rewrite Hc, Hh|].
        right. exists t'. split; reflexivity.
Qed.

Lemma split_segments url a b c d l :
  split "/" url 4 = a :: b :: c :: d :: l -> segments url a b c d.
Proof.
  intro H.
  apply split_S_inv in H as [Ha [[[=] _]|(t1 & -> & H)]]. symmetry in H.
  apply split_S_inv in H as [Hb [[[=] _]|(t2 & -> & H)]]. symmetry in H.
  apply split_S_inv in H as [Hc [[[=] _]|(t3 & -> & H)]]. symmetry in H.
  apply split_S_inv in H as [Hd [[_ ->]|(t4 & -> & _)]];
    repeat (split; [assumption|]).
  - exists EmptyString. split; [|now left].
    cbn [append]. now rewrite append_empty_r.
  - exists (String "/" t4). split; [reflexivity|]. right. now exists t4.
Qed.

Lemma segments_split url a b c d :
  segments url a b c d -> exists l, split "/" url 4 = a :: b :: c :: d :: l.
Proof.
  intros (Ha & Hb & Hc & Hd & rest & -> & Hrest).
  cbn [append]. rewrite !split_app_sep by assumption.
  destruct Hrest as [->|[r ->]].
  - exists []. rewrite append_empty_r. now rewrite split_no_sep.
  - exists [r]. now rewrite split_app_sep, split_0.
Qed.

(** ** Headers *)

Lemma to_N_byte_of_N (n : N) : Byte.to_N (byte_of_N n) = (n mod 256)%N.
Proof.
  unfold byte_of_N. destruct (Byte.of_N (n mod 256)) as [b|] eqn:E.
  - now apply Byte.to_of_N.
  - apply Byte.of_N_None_iff in E.
    pose proof (N.mod_upper_bound n 256). lia.
Qed.

Lemma from_to_bytes_little : forall k n,
  from_bytes_little (to_bytes_little k n) = (n mod 256 ^ N.of_nat k)%N.
Proof.
  induction k as [|k IH]; intro n.
  - cbn. now rewrite N.mod_1_r.
  - cbn [to_bytes_little from_bytes_little].
    rewrite to_N_byte_of_N, IH, Nat2N.inj_succ, N.pow_succ_r'.
    now rewrite N.Div0.mod_mul_r.
Qed.

Lemma from_bytes_little_le32 (n : N) :
  (n < 2 ^ 32)%N -> from_bytes_little (to_bytes_little 4 n) = n.
Proof.
  intro H. rewrite from_to_bytes_little. apply N.mod_small.
  change (256 ^ N.of_nat 4)%N with (2 ^ 32)%N. exact H.
Qed.

Lemma length_to_bytes_little k : forall n,
  List.length (to_bytes_little k n) = k.
Proof. induction k; intro n; cbn; [reflexivity|now rewrite IHk]. Qed.

Section Header.

Variables (url_length : N) (reserved rest : bytes).
Hypothesis reserved_12 : List.length reserved = 12.

Lemma header_startswith :
  startswith (header url_length reserved ++ rest) START_SUFFIX = true.
Proof. unfold header. rewrite <- app_assoc. apply startswith_app. Qed.

Lemma header_length_field :
  slice 12 16 (header url_length reserved ++ rest)
  = to_bytes_little 4 url_length.
Proof.
  unfold header, slice. rewrite <- !app_assoc.
  rewrite (app_assoc START_SUFFIX).
  change 12%N with (len (START_SUFFIX ++ repeat x00 4)) at 2.
  rewrite drop_app_len.
  replace (16 - 12)%N with (len (to_bytes_little 4 url_length))
    by (unfold len; now rewrite length_to_bytes_little).
  apply take_app_len.
Qed.

Lemma len_header : len (header url_length reserved) = 28%N.
Proof.
  unfold header, len. rewrite !length_app, length_to_bytes_little, reserved_12.
  reflexivity.
Qed.

Lemma header_drop : drop 28 (header url_length reserved ++ rest) = rest.
Proof. rewrite <- len_header. apply drop_app_len. Qed.

End Header.

(** ** The end suffix does not overlap itself *)

Lemma take_app_ge {A} (n : N) (a b : list A) :
  (n <= len a)%N -> take n (a ++ b) = take n a.
Proof.
  unfold len. intro H. rewrite !take_firstn, firstn_app.
  replace (N.to_nat n - List.length a) with 0 by lia.
  cbn. apply app_nil_r.
Qed.

(** Fewer than eleven bytes followed by the suffix do not start with it:
    the suffix begins with [x41], which none of its other bytes is. *)
Lemma short_prefix_no_marker (p x : bytes) :
  p <> [] -> List.length p < 11 ->
  bytes_eqb (take (len END_SUFFIX) (p ++ END_SUFFIX ++ x)) END_SUFFIX = false.
Proof.
  intros Hp Hlen.
  destruct (bytes_eqb (take (len END_SUFFIX) (p ++ END_SUFFIX ++ x)) END_SUFFIX)
    eqn:E; [exfalso|reflexivity].
  apply bytes_eqb_eq in E. rewrite take_firstn in E.
  change (N.to_nat (len END_SUFFIX)) with 11 in E.
  unfold END_SUFFIX in E.
  do 11 (destruct p as [|? p]; [try congruence; cbn in E; congruence|]).
  cbn in Hlen. lia.
Qed.

Lemma first_marker_after_payload : forall (p x : bytes) (k : N),
  bytes_in END_SUFFIX p = false ->
  (k < len p)%N -> marker_at (p ++ END_SUFFIX ++ x) k = false.
Proof.
  induction p as [|b t IH]; intros x k Hp Hk.
  - change (len (@nil byte)) with 0%N in Hk. lia.
  - cbn [bytes_in] in Hp. apply orb_false_iff in Hp as [H0 Ht].
    destruct k as [|k] using N.peano_ind.
    + rewrite marker_at_0.
      destruct (Nat.lt_ge_cases (List.length (b :: t)) 11) as [Hs|Hl].
      * apply short_prefix_no_marker; [discriminate|exact Hs].
      * rewrite take_app_ge, <- startswith_take; [exact H0|].
        unfold len. change (List.length END_SUFFIX) with 11. lia.
    + cbn [app]. rewrite marker_at_succ. apply IH; [exact Ht|].
      rewrite len_cons in Hk. lia.
Qed.

Lemma marker_after_payload (p x : bytes) :
  marker_at (p ++ END_SUFFIX ++ x) (len p) = true.
Proof.
  unfold marker_at. rewrite slice_drop, drop_app_len, take_app_len.
  now apply bytes_eqb_eq.
Qed.

(** ** The URL part *)

Section OriginFacts.

Lemma segments_not_empty url s0 s1 s2 s3 :
  segments url s0 s1 s2 s3 -> url <> EmptyString.
Proof.
  intros (_ & _ & _ & _ & rest & -> & _). destruct s0; discriminate.
Qed.

Lemma slice_28 (data_start : N) (data : bytes) :
  slice 28 data_start data = take (data_start - 28) (drop 28 data).
Proof. reflexivity. Qed.

Lemma parse_origin_inv data data_start domain datakind :
  parse_origin data = Ok (data_start, domain, datakind) ->
  data_start = (24 + from_bytes_little (slice 12 16 data))%N
  /\ exists url s0 s1 s3,
       decode (slice 28 data_start data) = Ok url
       /\ url <> EmptyString
       /\ segments url s0 s1 domain s3
       /\ datakind = kind_of domain s3.
Proof.
  unfold parse_origin.
  set (ds := (24 + from_bytes_little (slice 12 16 data))%N).
  destruct (decode (slice 28 ds data)) as [url|e] eqn:D; [|discriminate].
  cbn [bind]. destruct (String.eqb_spec url EmptyString) as [|Hne]; [discriminate|].
  destruct (split "/" url 4) as [|a [|b [|c [|d l]]]] eqn:S; try discriminate.
  intros [= <- <- <-]. split; [reflexivity|].
  exists url, a, b, d. split; [exact D|]. split; [exact Hne|].
  split; [exact (split_segments _ _ _ _ _ _ S)|reflexivity].
Qed.

Lemma parse_origin_segments data url s0 s1 s2 s3 :
  decode (slice 28 (24 + from_bytes_little (slice 12 16 data)) data) = Ok url ->
  segments url s0 s1 s2 s3 ->
  parse_origin data
  = Ok ((24 + from_bytes_little (slice 12 16 data))%N, s2, kind_of s2 s3).
Proof.
  intros D S. unfold parse_origin. rewrite D. cbn [bind].
  destruct (String.eqb_spec url EmptyString) as [E|_];
    [now apply segments_not_empty in S|].
  destruct (segments_split _ _ _ _ _ S) as [l ->]. reflexivity.
Qed.

(** The URL is never empty once [parse_origin] succeeds, so the data start
    lies beyond offset 28. *)
Lemma parse_origin_data_start data data_start domain datakind :
  parse_origin data = Ok (data_start, domain, datakind) ->
  (28 < data_start)%N.
Proof.
  intro H. apply parse_origin_inv in H as (_ & url & _ & _ & _ & D & Hne & _).
  unfold decode in D. rewrite slice_28 in D.
  destruct (N.ltb_spec 28 data_start) as [|Hle]; [assumption|exfalso].
  replace (data_start - 28)%N with 0%N in D by lia. rewrite take_0 in D.
  cbn in D. injection D as <-. now apply Hne.
Qed.

(** The URL part reads bytes 12-15 and the bytes from offset 28 on; the
    whole buffer comes in only through the message of the empty-URL
    error. *)
Lemma parse_origin_ext d1 d2 :
  slice 12 16 d1 = slice 12 16 d2 -> drop 28 d1 = drop 28 d2 ->
  parse_origin d1 = parse_origin d2
  \/ (parse_origin d1 = Raise (InvalidCacheFileFormat (NoUrl d1))
      /\ parse_origin d2 = Raise (InvalidCacheFileFormat (NoUrl d2))).
Proof.
  intros H12 H28. unfold parse_origin. rewrite !slice_28, H12, H28.
  destruct (decode _) as [url|e]; cbn [bind]; [|now left].
  destruct (String.eqb url EmptyString); [now right|now left].
Qed.

End OriginFacts.

(** ** The decoder on records built by hand *)

Section SyntheticRecords.

Variable magic : bytes -> string.

Lemma parse_origin_synthetic reserved url_bytes rest s0 s1 s2 s3 :
  List.length reserved = 12 ->
  (len url_bytes + 4 < 2 ^ 32)%N ->
  utf8_valid url_bytes = true ->
  segments (string_of_list_byte url_bytes) s0 s1 s2 s3 ->
  parse_origin (header (len url_bytes + 4) reserved ++ url_bytes ++ rest)
  = Ok ((28 + len url_bytes)%N, s2, kind_of s2 s3).
Proof.
  intros Hr Hn Hu Hs.
  assert (F : from_bytes_little
                (slice 12 16 (header (len url_bytes + 4) reserved
                              ++ url_bytes ++ rest))
              = (len url_bytes + 4)%N)
    by (rewrite header_length_field; now apply from_bytes_little_le32).
  rewrite (parse_origin_segments _ (string_of_list_byte url_bytes) s0 s1 s2 s3).
  - rewrite F. do 3 f_equal. lia.
  - rewrite F, slice_28, header_drop by exact Hr.
    replace (24 + (len url_bytes + 4) - 28)%N with (len url_bytes) by lia.
    rewrite take_app_len. unfold decode. now rewrite Hu.
  - exact Hs.
Qed.

(** When a byte follows the end marker.  A buffer made of the start
    marker, zeros up to offset 12, the little-endian 32-bit field holding
    the length of the URL plus four, twelve reserved bytes, a URL that is
    well-formed UTF-8 with at least four ['/']-delimited segments, a payload
    in which the end marker does not occur, the end marker, and at least
    one byte after it, decodes to exactly that payload and to the URL's
    third segment as the domain. *)
Lemma synthetic_record_decodes :
  forall (reserved url_bytes payload_bytes trailing : bytes)
         (s0 s1 s2 s3 : string),
  List.length reserved = 12 ->
  (len url_bytes + 4 < 2 ^ 32)%N ->
  utf8_valid url_bytes = true ->
  segments (string_of_list_byte url_bytes) s0 s1 s2 s3 ->
  bytes_in END_SUFFIX payload_bytes = false ->
  trailing <> [] ->
  parse_cache_file magic
    (synthetic (len url_bytes + 4) reserved url_bytes payload_bytes trailing)
  = Ok (payload_bytes, s2, kind_of s2 s3, magic payload_bytes).
Proof.
  intros reserved url_bytes payload_bytes trailing s0 s1 s2 s3
         Hr Hn Hu Hs Hp Ht.
  unfold synthetic.
  set (data := header _ _ ++ _).
  assert (R : drop (28 + len url_bytes) data
              = payload_bytes ++ END_SUFFIX ++ trailing).
  { unfold data. rewrite <- drop_drop, header_drop by exact Hr.
    apply drop_app_len. }
  rewrite (parse_cache_file_first magic data (28 + len url_bytes) s2
             (kind_of s2 s3) (len payload_bytes)).
  - now rewrite R, take_app_len.
  - apply header_startswith.
  - now apply parse_origin_synthetic with (s0 := s0) (s1 := s1).
  - rewrite R. apply marker_after_payload.
  - intros k Hk. rewrite R. now apply first_marker_after_payload.
  - rewrite R, !len_app. destruct trailing as [|b t]; [contradiction|].
    rewrite len_cons. lia.
Qed.

(** C1, on the code.  The same buffer with nothing after the end marker,
    which is the layout of the statement: start marker, zeros up to offset
    12, the length field, twelve reserved bytes, the URL, a payload without
    the end marker, and the end marker closing the buffer.  The decoder
    does not return the payload: the loop test [index + 11 < len] stops
    one position short of the marker and [InvalidCacheFileFormat] is
    raised with the message that the end suffix was not found. *)
Theorem C1_record_closed_by_the_marker_is_refused :
  forall (reserved url_bytes payload_bytes : bytes) (s0 s1 s2 s3 : string),
  List.length reserved = 12 ->
  (len url_bytes + 4 < 2 ^ 32)%N ->
  utf8_valid url_bytes = true ->
  segments (string_of_list_byte url_bytes) s0 s1 s2 s3 ->
  bytes_in END_SUFFIX payload_bytes = false ->
  parse_cache_file magic
    (synthetic (len url_bytes + 4) reserved url_bytes payload_bytes [])
  = Raise (InvalidCacheFileFormat NoEndSuffix).
Proof.
  intros reserved url_bytes payload_bytes s0 s1 s2 s3 Hr Hn Hu Hs Hp.
  unfold synthetic.
  set (data := header _ _ ++ _).
  assert (R : drop (28 + len url_bytes) data
              = payload_bytes ++ END_SUFFIX ++ []).
  { unfold data. rewrite <- drop_drop, header_drop by exact Hr.
    apply drop_app_len. }
  assert (O : parse_origin data
              = Ok ((28 + len url_bytes)%N, s2, kind_of s2 s3))
    by now apply parse_origin_synthetic with (s0 := s0) (s1 := s1).
  rewrite parse_cache_file_unfold.
  assert (S : startswith data START_SUFFIX = true)
    by apply header_startswith.
  rewrite S, O. cbn [negb bind].
  destruct (scan_rest _ []) as [p|] eqn:E; [exfalso|reflexivity].
  apply scan_rest_Some_inv in E as (i & _ & Mi & _ & Hi).
  rewrite R in Mi, Hi. rewrite !len_app in Hi.
  change (len (@nil byte)) with 0%N in Hi.
  rewrite first_marker_after_payload in Mi; [discriminate|exact Hp|lia].
Qed.

End SyntheticRecords.

(** ** What the decoder reads *)

Lemma reserved_offset_false (i : nat) :
  reserved_offset i = false <-> ~ (8 <= i < 12 \/ 16 <= i < 28).
Proof.
  unfold reserved_offset.
  destruct (Nat.leb_spec 8 i), (Nat.ltb_spec i 12), (Nat.leb_spec 16 i),
    (Nat.ltb_spec i 28); cbn; split; intros; try discriminate; try lia;
    try reflexivity; exfalso; lia.
Qed.

Section DecoderReads.

Variable magic : bytes -> string.

(** The result is a function of the first eight bytes, of bytes 12-15 and
    of the bytes from offset 28 on, but for the message of the empty-URL
    error, which quotes the buffer. *)
Lemma parse_cache_file_ext d1 d2 :
  take 8 d1 = take 8 d2 ->
  slice 12 16 d1 = slice 12 16 d2 ->
  drop 28 d1 = drop 28 d2 ->
  parse_cache_file magic d1 = parse_cache_file magic d2
  \/ (parse_cache_file magic d1 = Raise (InvalidCacheFileFormat (NoUrl d1))
      /\ parse_cache_file magic d2
         = Raise (InvalidCacheFileFormat (NoUrl d2))).
Proof.
  intros H8 H12 H28. rewrite !parse_cache_file_unfold.
  rewrite !startswith_take. change (len START_SUFFIX) with 8%N. rewrite H8.
  destruct (negb _); [now left|].
  destruct (parse_origin_ext d1 d2 H12 H28) as [E|[E1 E2]].
  - left. rewrite E.
    destruct (parse_origin d2) as [[[ds domain] kind]|e] eqn:O; [|reflexivity].
    cbn [bind]. apply parse_origin_data_start in O.
    replace ds with (28 + (ds - 28))%N by lia.
    now rewrite <- !drop_drop, H28.
  - right. now rewrite E1, E2.
Qed.

(** C9, as the decoder has it.  Two buffers of equal length that differ
    only at the reserved offsets 8-11 and 16-27 decode alike, the same
    payload, domain, kind and content type or the same exception, with one
    exception to it: when the URL is empty, each raises
    [InvalidCacheFileFormat] with a message that quotes its own buffer,
    reserved bytes included. *)
Theorem C9_reserved_bytes_reach_only_the_message : forall d1 d2 : bytes,
  same_outside_reserved d1 d2 ->
  parse_cache_file magic d1 = parse_cache_file magic d2
  \/ (parse_cache_file magic d1 = Raise (InvalidCacheFileFormat (NoUrl d1))
      /\ parse_cache_file magic d2
         = Raise (InvalidCacheFileFormat (NoUrl d2))).
Proof.
  intros d1 d2 [_ H]. apply parse_cache_file_ext.
  - rewrite !take_firstn. apply nth_error_ext. intro i.
    rewrite !nth_error_firstn. change (N.to_nat 8) with 8.
    destruct (Nat.ltb_spec i 8); [|reflexivity].
    apply H, reserved_offset_false. lia.
  - unfold slice. rewrite !take_firstn, !drop_skipn. apply nth_error_ext.
    intro i. rewrite !nth_error_firstn, !nth_error_skipn.
    change (N.to_nat (16 - 12)) with 4. change (N.to_nat 12) with 12.
    destruct (Nat.ltb_spec i 4); [|reflexivity].
    apply H, reserved_offset_false. lia.
  - rewrite !drop_skipn. apply nth_error_ext. intro i.
    rewrite !nth_error_skipn. change (N.to_nat 28) with 28.
    apply H, reserved_offset_false. lia.
Qed.

(** C10.  A buffer that starts with the start marker and whose length field
    at offset 12 is at most 4 is rejected with [InvalidCacheFileFormat]
    and the message of the empty URL: the data start is at most 28, so the
    URL slice is empty. *)
Theorem C10_short_length_field_is_rejected : forall data : bytes,
  startswith data START_SUFFIX = true ->
  (from_bytes_little (slice 12 16 data) <= 4)%N ->
  parse_cache_file magic data = Raise (InvalidCacheFileFormat (NoUrl data)).
Proof.
  intros data Hs Ho. unfold parse_cache_file.
  rewrite Hs. cbn [negb]. rewrite slice_28.
  replace (24 + from_bytes_little (slice 12 16 data) - 28)%N with 0%N by lia.
  rewrite take_0. reflexivity.
Qed.

(** C6.  When a buffer decodes, the domain and the kind come from the
    third and fourth ['/']-delimited segments of its URL: the kind is absent
    exactly when the domain does not contain [discord] or the fourth
    segment is [api], and is the fourth segment in every other case. *)
Theorem C6_kind_rule :
  forall (data output : bytes) (domain : string) (kind : option string)
         (mime_type : string),
  parse_cache_file magic data = Ok (output, domain, kind, mime_type) ->
  exists url s0 s1 s3,
    decode (slice 28 (24 + from_bytes_little (slice 12 16 data)) data) = Ok url
    /\ segments url s0 s1 domain s3
    /\ (kind = None <-> contains "discord" domain = false \/ s3 = "api"%string)
    /\ (~ (contains "discord" domain = false \/ s3 = "api"%string) ->
        kind = Some s3).
Proof.
  intros data output domain kind mime_type H.
  apply parse_cache_file_Ok_inv in H as (_ & _ & ds & i & O & _).
  apply parse_origin_inv in O as (-> & url & s0 & s1 & s3 & D & _ & S & ->).
  exists url, s0, s1, s3. split; [exact D|]. split; [exact S|].
  unfold kind_of.
  destruct (contains "discord" domain); destruct (String.eqb_spec s3 "api");
    cbn; split.
  all: try (split; [intros _|intros _; reflexivity]; auto; fail).
  all: try (intro C; exfalso; apply C; auto; fail).
  all: try (split; [discriminate|intros [C|C]; [discriminate|contradiction]]).
  all: try reflexivity.
Qed.

(** C7.  When the end marker occurs more than once from the data start on
    (a payload that holds the marker bytes, followed by the real marker),
    decoding succeeds and the payload is the region cut at the first
    occurrence, the marker left out. *)
Theorem C7_payload_stops_at_first_marker :
  forall (data : bytes) (data_start : N) (domain : string)
         (kind : option string) (i j : N),
  startswith data START_SUFFIX = true ->
  parse_origin data = Ok (data_start, domain, kind) ->
  marker_at (drop data_start data) i = true ->
  (forall k, (k < i)%N -> marker_at (drop data_start data) k = false) ->
  (i < j)%N ->
  marker_at (drop data_start data) j = true ->
  parse_cache_file magic data
  = Ok (take i (drop data_start data), domain, kind,
        magic (take i (drop data_start data))).
Proof.
  intros data ds domain kind i j Hs Ho Hi Hfirst Hij Hj.
  apply parse_cache_file_first; auto.
  apply marker_at_len in Hj. lia.
Qed.

End DecoderReads.

(** ** When the decoder raises [InvalidCacheFileFormat] *)

Lemma parse_origin_format_error (data : bytes) (message : format_message) :
  parse_origin data = Raise (InvalidCacheFileFormat message)
  <-> message = NoUrl data
      /\ decode (slice 28 (24 + from_bytes_little (slice 12 16 data)) data)
         = Ok EmptyString.
Proof.
  unfold parse_origin.
  destruct (decode _) as [url|e] eqn:D; cbn [bind].
  - destruct (String.eqb_spec url EmptyString) as [->|Hne].
    + split; [intros [= <-]; now split|intros [-> _]; reflexivity].
    + destruct (split "/" url 4) as [|a [|b [|c [|d l]]]];
        (split; [discriminate|intros [_ [= E]]; now subst]).
  - unfold decode in D. destruct (utf8_valid _); [discriminate|].
    injection D as <-. split; [discriminate|intros [_ C]; discriminate C].
Qed.

Section FormatError.

Variable magic : bytes -> string.

(** The three ways to [InvalidCacheFileFormat], each with its message: no
    start marker; an empty URL; or a URL that parses and no end marker
    that has a byte after it. *)
Lemma parse_cache_file_format_messages (data : bytes) :
  let data_start := (24 + from_bytes_little (slice 12 16 data))%N in
  (parse_cache_file magic data = Raise (InvalidCacheFileFormat NoStartPrefix)
   <-> startswith data START_SUFFIX = false)
  /\ (parse_cache_file magic data = Raise (InvalidCacheFileFormat (NoUrl data))
      <-> startswith data START_SUFFIX = true
          /\ decode (slice 28 data_start data) = Ok EmptyString)
  /\ (parse_cache_file magic data = Raise (InvalidCacheFileFormat NoEndSuffix)
      <-> startswith data START_SUFFIX = true
          /\ (exists domain kind,
                parse_origin data = Ok (data_start, domain, kind))
          /\ forall i, (i + len END_SUFFIX < len (drop data_start data))%N ->
                       marker_at (drop data_start data) i = false)
  /\ (forall message,
        parse_cache_file magic data = Raise (InvalidCacheFileFormat message) ->
        message = NoStartPrefix \/ message = NoUrl data
        \/ message = NoEndSuffix).
Proof.
  cbn zeta. rewrite parse_cache_file_unfold.
  destruct (startswith data START_SUFFIX); cbn [negb].
  2: { split; [split; auto|].
       split; [split; [discriminate|intros [C _]; discriminate C]|].
       split; [split; [discriminate|intros [C _]; discriminate C]|].
       intros m [= <-]. auto. }
  destruct (parse_origin data) as [[[ds domain] kind]|e] eqn:O; cbn [bind].
  - pose proof (parse_origin_inv _ _ _ _ O)
      as (-> & url & _ & _ & _ & D & Hne & _).
    assert (NotEmpty : decode (slice 28 (24 + from_bytes_little
                                              (slice 12 16 data)) data)
                       <> Ok EmptyString)
      by (rewrite D; intros [= ->]; now apply Hne).
    destruct (scan_rest _ []) as [p|] eqn:S.
    + split; [split; discriminate|].
      split; [split; [discriminate|intros [_ C]; now apply NotEmpty in C]|].
      split; [|intros m; discriminate].
      split; [discriminate|]. intros (_ & _ & C).
      apply scan_rest_Some_inv in S as (i & _ & Mi & _ & Hi).
      now rewrite (C i Hi) in Mi.
    + split; [split; discriminate|].
      split; [split; [discriminate|intros [_ C]; now apply NotEmpty in C]|].
      split; [|intros m [= <-]; auto].
      split; [intros _|reflexivity].
      split; [reflexivity|]. split; [now exists domain, kind|].
      now apply scan_rest_None_inv with (acc0 := []).
  - split; [split; [|discriminate]|].
    { intros [= ->]. apply parse_origin_format_error in O as [C _].
      discriminate C. }
    split; [split|].
    { intros [= ->]. split; [reflexivity|].
      now apply parse_origin_format_error in O as [_ O]. }
    { intros [_ C].
      rewrite (proj2 (parse_origin_format_error data (NoUrl data))
                     (conj eq_refl C)) in O.
      now injection O as <-. }
    split; [split|].
    { intros [= ->]. apply parse_origin_format_error in O as [C _].
      discriminate C. }
    { intros (_ & (d & k & C) & _). discriminate C. }
    intros m [= ->]. apply parse_origin_format_error in O as [-> _]. auto.
Qed.

(** [InvalidCacheFileFormat] with some message, in one statement. *)
Lemma parse_cache_file_format_error (data : bytes) :
  let data_start := (24 + from_bytes_little (slice 12 16 data))%N in
  (exists message,
     parse_cache_file magic data = Raise (InvalidCacheFileFormat message))
  <-> startswith data START_SUFFIX = false
      \/ (startswith data START_SUFFIX = true
          /\ decode (slice 28 data_start data) = Ok EmptyString)
      \/ (startswith data START_SUFFIX = true
          /\ (exists domain kind,
                parse_origin data = Ok (data_start, domain, kind))
          /\ forall i, (i + len END_SUFFIX < len (drop data_start data))%N ->
                       marker_at (drop data_start data) i = false).
Proof.
  cbn zeta.
  destruct (parse_cache_file_format_messages data) as (A & B & C & D).
  split.
  - intros [m H]. destruct (D m H) as [->|[->| ->]].
    + left. now apply A.
    + right. left. now apply B.
    + right. right. now apply C.
  - intros [H|[H|H]].
    + exists NoStartPrefix. now apply A.
    + exists (NoUrl data). now apply B.
    + exists NoEndSuffix. now apply C.
Qed.

(** The domain and the kind hold no ['/']: they are single components of a
    path, as [joinpath] expects. *)
Lemma parse_cache_file_components data output domain kind mime_type :
  parse_cache_file magic data = Ok (output, domain, kind, mime_type) ->
  in_string "/" domain = false
  /\ forall k, kind = Some k -> in_string "/" k = false.
Proof.
  intro H. apply parse_cache_file_Ok_inv in H as (_ & _ & ds & i & O & _).
  apply parse_origin_inv in O as (_ & url & s0 & s1 & s3 & _ & _ & S & ->).
  destruct S as (_ & _ & Hd & H3 & _). split; [exact Hd|].
  unfold kind_of. intros k. destruct (_ || _); [discriminate|].
  now intros [= <-].
Qed.

End FormatError.

(** ** Dictionaries *)

Lemma key_eqb_eq (a b : option string) : key_eqb a b = true <-> a = b.
Proof.
  destruct a as [x|], b as [y|]; cbn; try (split; (reflexivity || discriminate)).
  rewrite String.eqb_eq. split; [now intros ->|now intros [= ->]].
Qed.

Lemma key_eqb_refl (a : option string) : key_eqb a a = true.
Proof. now apply key_eqb_eq. Qed.

Lemma key_eqb_sym (a b : option string) : key_eqb a b = key_eqb b a.
Proof.
  destruct (key_eqb a b) eqn:E.
  - apply key_eqb_eq in E as ->. now rewrite key_eqb_refl.
  - destruct (key_eqb b a) eqn:E'; [|reflexivity].
    apply key_eqb_eq in E' as ->. now rewrite key_eqb_refl in E.
Qed.

Lemma dict_get_set (d : dict) (key : option string) (v : nat) key' :
  dict_get (dict_set d key v) key'
  = if key_eqb key key' then Some v else dict_get d key'.
Proof.
  induction d as [|[k w] d IH]; cbn [dict_set dict_get].
  - reflexivity.
  - destruct (key_eqb k key) eqn:E; cbn [dict_get].
    + apply key_eqb_eq in E as ->. now destruct (key_eqb key key').
    + rewrite IH. destruct (key_eqb k key') eqn:E'; [|reflexivity].
      apply key_eqb_eq in E' as ->. now rewrite key_eqb_sym, E.
Qed.

(** After [dict_increment d key], [key] holds one more than before (one, if
    it was absent) and every other key is untouched. *)
Lemma dict_get_increment (d : dict) (key key' : option string) :
  dict_get (dict_increment d key) key'
  = if key_eqb key key' then Some (dict_item d key + 1)
    else dict_get d key'.
Proof.
  unfold dict_increment, dict_in, dict_item.
  destruct (dict_get d key) as [v|] eqn:G; cbn [negb].
  - rewrite dict_get_set, G. reflexivity.
  - rewrite !dict_get_set, key_eqb_refl.
    now destruct (key_eqb key key').
Qed.

Lemma dict_item_increment (d : dict) (key key' : option string) :
  dict_item (dict_increment d key) key'
  = dict_item d key' + (if key_eqb key key' then 1 else 0).
Proof.
  unfold dict_item at 1. rewrite dict_get_increment.
  destruct (key_eqb key key') eqn:E.
  - now apply key_eqb_eq in E as ->.
  - unfold dict_item. lia.
Qed.

Lemma dict_eq_refl d : dict_eq d d.
Proof. intro; reflexivity. Qed.

Lemma dict_eq_trans d1 d2 d3 : dict_eq d1 d2 -> dict_eq d2 d3 -> dict_eq d1 d3.
Proof. intros H1 H2 k. now rewrite H1. Qed.

Lemma dict_increment_proper d1 d2 key :
  dict_eq d1 d2 -> dict_eq (dict_increment d1 key) (dict_increment d2 key).
Proof.
  intros H k. rewrite !dict_get_increment. unfold dict_item. now rewrite !H.
Qed.

Lemma dict_increment_comm d a b :
  dict_eq (dict_increment (dict_increment d a) b)
          (dict_increment (dict_increment d b) a).
Proof.
  intro k. rewrite !dict_get_increment. unfold dict_item.
  rewrite !dict_get_increment.
  destruct (key_eqb a b) eqn:Eab.
  - apply key_eqb_eq in Eab as ->. rewrite key_eqb_refl. reflexivity.
  - rewrite (key_eqb_sym b a), Eab.
    destruct (key_eqb b k) eqn:Eb, (key_eqb a k) eqn:Ea; try reflexivity.
    apply key_eqb_eq in Eb as ->. apply key_eqb_eq in Ea as ->.
    now rewrite key_eqb_refl in Eab.
Qed.

(** ** The result loop *)

Lemma stats_eq_refl s : stats_eq s s.
Proof. repeat split; apply dict_eq_refl. Qed.

Lemma stats_eq_trans s1 s2 s3 : stats_eq s1 s2 -> stats_eq s2 s3 -> stats_eq s1 s3.
Proof.
  intros (A1 & B1 & C1) (A2 & B2 & C2).
  repeat split; [eapply dict_eq_trans; eauto..|congruence].
Qed.

Lemma consume_proper s1 s2 i j r :
  stats_eq s1 s2 -> stats_eq (consume s1 i r) (consume s2 j r).
Proof.
  intros (A & B & C). destruct r as [domain mime_type].
  repeat split; cbn; [now apply dict_increment_proper..|now rewrite C].
Qed.

Lemma consume_comm s i j i' j' r1 r2 :
  stats_eq (consume (consume s i r1) j r2) (consume (consume s i' r2) j' r1).
Proof.
  destruct r1 as [d1 m1], r2 as [d2 m2].
  repeat split; cbn; [apply dict_increment_comm..|lia].
Qed.

Lemma consume_from_proper results : forall s1 s2 i j,
  stats_eq s1 s2 ->
  stats_eq (consume_from s1 i results) (consume_from s2 j results).
Proof.
  induction results as [|r rest IH]; intros s1 s2 i j H; cbn; [exact H|].
  apply IH. now apply consume_proper.
Qed.

(** The loop started from equal statistics ends in equal statistics,
    whatever the order of arrival. *)
Lemma consume_from_perm results1 results2 :
  Permutation results1 results2 ->
  forall s1 s2 i j, stats_eq s1 s2 ->
  stats_eq (consume_from s1 i results1) (consume_from s2 j results2).
Proof.
  induction 1 as [|r l1 l2 _ IH|r1 r2 l|l1 l2 l3 _ IH1 _ IH2];
    intros s1 s2 i j H.
  - exact H.
  - cbn. apply IH. now apply consume_proper.
  - cbn. apply consume_from_proper.
    eapply stats_eq_trans; [apply (consume_comm _ _ _ 0 0)|].
    apply consume_proper, consume_proper, H.
  - eapply stats_eq_trans; [apply (IH1 s1 s1 i i), stats_eq_refl|].
    now apply IH2.
Qed.

(** C5.  Consuming the same outcomes in two different orders gives the same
    content-type mapping, the same domain mapping and the same count of
    sorted files. *)
Theorem C5_statistics_ignore_arrival_order :
  forall results1 results2 : list (option string * option string),
  Permutation results1 results2 ->
  stats_eq (aggregate results1) (aggregate results2).
Proof.
  intros results1 results2 H. unfold aggregate.
  apply consume_from_perm; [exact H|apply stats_eq_refl].
Qed.

(** ** The worker *)

Section WorkerFacts.

Variable magic : bytes -> string.
Variable file_system : fs_op -> option fault.
Variable joinpath : Path -> string -> Path.

Notation "p // s" := (joinpath p s) (at level 40, left associativity).

(** What the worker does with a record it keeps: the three operations, as
    far as the file system lets them go. *)
Lemma worker_included :
  forall (all_files : bool) (root : Path) (cache_filepath : entry)
         (raw_data : bytes) (domain : string) (kind : option string)
         (mime_type category extension : string),
  open_and_parse_cache_file magic cache_filepath
    = Ok (raw_data, domain, kind, mime_type) ->
  split_all "/" mime_type = [category; extension] ->
  category = "image"%string \/ all_files = true ->
  let category_path :=
    match kind with
    | Some kind => root // category // kind
    | None => root // category // "other" // domain
    end in
  let full_path :=
    category_path // (name cache_filepath ++ "." ++ extension)%string in
  let work :=
    perform file_system
      [Mkdir category_path; Touch full_path; WriteBytes full_path raw_data] in
  create_file_from_cache_file magic file_system joinpath all_files root
    cache_filepath
  = (fst work, _ <- snd work ;; Ok (Some domain, Some mime_type)).
Proof.
  intros all_files root file raw_data domain kind mime_type category extension
         Hparse Hsplit Hinc. cbn zeta.
  unfold create_file_from_cache_file. rewrite Hparse, Hsplit.
  assert (G : negb (String.eqb category "image") && negb all_files = false).
  { destruct Hinc as [-> | ->]; [reflexivity|apply andb_false_r]. }
  rewrite G. destruct kind; now destruct (perform _ _).
Qed.

(** The three operations of a worker go through together, or the file is
    not written. *)
Lemma perform_three (dir p : Path) (data : bytes) :
  let work := perform file_system [Mkdir dir; Touch p; WriteBytes p data] in
  (file_system (Mkdir dir) = None /\ file_system (Touch p) = None
   /\ file_system (WriteBytes p data) = None
   /\ work = ([Mkdir dir; Touch p; WriteBytes p data], Ok tt))
  \/ (exists f, snd work = Raise (exn_of_fault f) /\ written (fst work) = []
       /\ (file_system (Mkdir dir) = Some f
           \/ file_system (Touch p) = Some f
           \/ file_system (WriteBytes p data) = Some f)).
Proof.
  cbn [perform].
  destruct (file_system (Mkdir dir)) as [f|]; [right; exists f; auto|].
  destruct (file_system (Touch p)) as [f|]; [right; exists f; auto|].
  destruct (file_system (WriteBytes p data)) as [f|]; [right; exists f; auto|].
  left. auto.
Qed.

(** C8.  For a record that decodes and that the policy lets through (its
    category is [image], or all files are wanted), the only file the
    worker can write is [name.extension] in the directory
    [root/category/kind], or [root/category/other/domain] when the kind is
    absent, where category and extension are the two parts of the content
    type, and it holds the payload.  The worker returns normally exactly
    when it wrote that file, after creating the directory; and it does so
    whenever the file system accepts the directory, the file and the
    bytes. *)
Theorem C8_destination_path :
  forall (all_files : bool) (root : Path) (cache_filepath : entry)
         (raw_data : bytes) (domain : string) (kind : option string)
         (mime_type category extension : string),
  open_and_parse_cache_file magic cache_filepath
    = Ok (raw_data, domain, kind, mime_type) ->
  split_all "/" mime_type = [category; extension] ->
  category = "image"%string \/ all_files = true ->
  let destination :=
    match kind with
    | Some kind => root // category // kind
    | None => root // category // "other" // domain
    end in
  let full_path :=
    destination // (name cache_filepath ++ "." ++ extension)%string in
  let work :=
    create_file_from_cache_file magic file_system joinpath all_files root
      cache_filepath in
  (forall p data, In (p, data) (written (fst work)) ->
                  p = full_path /\ data = raw_data)
  /\ (forall v, snd work = Ok v ->
        v = (Some domain, Some mime_type)
        /\ written (fst work) = [(full_path, raw_data)]
        /\ In (Mkdir destination) (fst work))
  /\ (written (fst work) <> [] ->
      snd work = Ok (Some domain, Some mime_type))
  /\ (file_system (Mkdir destination) = None ->
      file_system (Touch full_path) = None ->
      file_system (WriteBytes full_path raw_data) = None ->
      written (fst work) = [(full_path, raw_data)]
      /\ In (Mkdir destination) (fst work)
      /\ snd work = Ok (Some domain, Some mime_type)).
Proof.
  intros all_files root file raw_data domain kind mime_type category extension
         Hparse Hsplit Hinc. cbn zeta.
  rewrite (worker_included all_files root file _ _ _ _ _ _ Hparse Hsplit Hinc).
  cbn [fst snd].
  match goal with
  | |- context [perform file_system [Mkdir ?d; Touch ?p; WriteBytes ?p ?x]] =>
    destruct (perform_three d p x) as [(A & B & C & ->)|(f & R & W & F)]
  end.
  - cbn [fst snd bind written In]. split; [|split; [|split]].
    + intros p data [[= <- <-]|[]]. now split.
    + intros v [= <-]. auto.
    + intros _. reflexivity.
    + intros _ _ _. auto.
  - rewrite R, W. cbn [bind In]. split; [|split; [|split]].
    + intros p data [].
    + intros v C. discriminate C.
    + intro C. now contradiction C.
    + intros A B C. destruct F as [F|[F|F]]; congruence.
Qed.

(** When the file system accepts the three operations, the record is
    exported. *)
Lemma worker_exported :
  forall (all_files : bool) (root : Path) (cache_filepath : entry)
         (raw_data : bytes) (domain : string) (kind : option string)
         (mime_type category extension : string),
  open_and_parse_cache_file magic cache_filepath
    = Ok (raw_data, domain, kind, mime_type) ->
  split_all "/" mime_type = [category; extension] ->
  category = "image"%string \/ all_files = true ->
  let category_path :=
    match kind with
    | Some kind => root // category // kind
    | None => root // category // "other" // domain
    end in
  let full_path :=
    category_path // (name cache_filepath ++ "." ++ extension)%string in
  file_system (Mkdir category_path) = None ->
  file_system (Touch full_path) = None ->
  file_system (WriteBytes full_path raw_data) = None ->
  create_file_from_cache_file magic file_system joinpath all_files root
    cache_filepath
  = ([Mkdir category_path; Touch full_path; WriteBytes full_path raw_data],
     Ok (Some domain, Some mime_type)).
Proof.
  intros all_files root file raw_data domain kind mime_type category extension
         Hparse Hsplit Hinc. cbn zeta. intros A B C.
  rewrite (worker_included all_files root file _ _ _ _ _ _ Hparse Hsplit Hinc).
  cbn [perform]. now rewrite A, B, C.
Qed.

(** A record that decodes but is neither an image nor wanted is dropped
    with the same value as a file that does not decode. *)
Lemma worker_filtered root file raw_data domain kind mime_type category extension :
  open_and_parse_cache_file magic file = Ok (raw_data, domain, kind, mime_type) ->
  split_all "/" mime_type = [category; extension] ->
  category <> "image"%string ->
  create_file_from_cache_file magic file_system joinpath false root file
  = ([], Ok (None, None)).
Proof.
  intros Hparse Hsplit Hcat. unfold create_file_from_cache_file.
  rewrite Hparse, Hsplit.
  destruct (String.eqb_spec category "image"); [contradiction|reflexivity].
Qed.

(** A file the decoder refuses with [InvalidCacheFileFormat], whatever the
    message, is dropped with the value [(None, None)]. *)
Lemma worker_refused all_files root file data message :
  contents file = Some data ->
  parse_cache_file magic data = Raise (InvalidCacheFileFormat message) ->
  create_file_from_cache_file magic file_system joinpath all_files root file
  = ([], Ok (None, None)).
Proof.
  intros Hc Hp. unfold create_file_from_cache_file, open_and_parse_cache_file.
  now rewrite Hc, Hp.
Qed.

Lemma worker_bad_start all_files root file data :
  contents file = Some data ->
  startswith data START_SUFFIX = false ->
  create_file_from_cache_file magic file_system joinpath all_files root file
  = ([], Ok (None, None)).
Proof.
  intros Hc Hs. apply (worker_refused _ _ _ data NoStartPrefix); [exact Hc|].
  unfold parse_cache_file. now rewrite Hs.
Qed.

End WorkerFacts.

Lemma Permutation_three {A} (a b c : A) (l : list A) :
  Permutation [a; b; c] l ->
  l = [a; b; c] \/ l = [a; c; b] \/ l = [b; a; c]
  \/ l = [b; c; a] \/ l = [c; a; b] \/ l = [c; b; a].
Proof.
  intro H.
  destruct (Permutation_vs_cons_inv (Permutation_sym H)) as (l1 & l2 & ->).
  apply Permutation_cons_app_inv, Permutation_length_2_inv in H.
  destruct l1 as [|x [|y [|z l1]]]; cbn in H; destruct H as [H|H];
    destruct l2 as [|u [|v [|w l2]]]; try discriminate H;
    inversion H; subst; cbn; auto 7.
Qed.

(** ** A run over three files *)

Section ThreeFiles.

Variable magic : bytes -> string.
Variable file_system : fs_op -> option fault.
Variable joinpath : Path -> string -> Path.

Notation "p // s" := (joinpath p s) (at level 40, left associativity).

(** C3, as the pipeline has it.  First, for every file: a record that
    decodes and is excluded by the policy ([all_files] off, a category
    other than [image]) gives the worker's value [(None, None)], the value
    of a file that does not decode, with nothing written, and that value
    leaves [sorted_count] where it was.  Second, the scenario: with
    [all_files] off, over a directory of one record sniffed as
    [image/png], one sniffed as [text/html] and one file with a damaged
    start marker, in any order of arrival, and the file system accepting
    the PNG's directory and file: the run ends normally, three entries are
    listed, one file is written (the PNG), [sorted_count] is 1, the
    content types are exactly [image/png: 1, None: 2] and the domains
    exactly [<domain of the PNG>: 1, None: 2], the excluded record and the
    undecodable file being the two under [None]. *)
Theorem C3_three_file_run :
  (forall (root : Path) (file : entry) (raw_data : bytes) (domain : string)
          (kind : option string) (mime_type category extension : string),
     open_and_parse_cache_file magic file
       = Ok (raw_data, domain, kind, mime_type) ->
     split_all "/" mime_type = [category; extension] ->
     category <> "image"%string ->
     create_file_from_cache_file magic file_system joinpath false root file
     = ([], Ok (None, None))
     /\ forall st i,
          sorted_count (consume st i (None, None)) = sorted_count st)
  /\
  (forall (root : Path) (png html bad : entry) (bad_data p1 p2 : bytes)
          (d1 d2 : string) (k1 k2 : option string) (completed : list entry),
     is_file png = true -> is_file html = true -> is_file bad = true ->
     open_and_parse_cache_file magic png
       = Ok (p1, d1, k1, "image/png"%string) ->
     open_and_parse_cache_file magic html
       = Ok (p2, d2, k2, "text/html"%string) ->
     contents bad = Some bad_data ->
     startswith bad_data START_SUFFIX = false ->
     let destination :=
       match k1 with
       | Some kind => root // "image" // kind
       | None => root // "image" // "other" // d1
       end in
     let full_path := destination // (name png ++ ".png")%string in
     file_system (Mkdir destination) = None ->
     file_system (Touch full_path) = None ->
     file_system (WriteBytes full_path p1) = None ->
     completion_of [png; html; bad] completed ->
     exists r,
       process_all_files magic file_system joinpath false root [png; html; bad]
         completed = Ok r
       /\ files_count r = 3
       /\ written (effects r) = [(full_path, p1)]
       /\ sorted_count (final r) = 1
       /\ dict_eq (types (final r)) [(Some "image/png"%string, 1); (None, 2)]
       /\ dict_eq (domains (final r)) [(Some d1, 1); (None, 2)]).
Proof.
  split.
  { intros root file raw_data domain kind mime_type category extension
           Hparse Hsplit Hcat.
    split; [now apply (worker_filtered magic file_system joinpath root file
                         raw_data domain kind mime_type category extension)|].
    intros st i. cbn. lia. }
  intros root png html bad bad_data p1 p2 d1 d2 k1 k2 completed
         F1 F2 F3 P1 P2 C3 S3. cbn zeta. intros A1 A2 A3 Hc.
  unfold completion_of in Hc. cbn [filter] in Hc. rewrite F1, F2, F3 in Hc.
  pose proof (worker_exported magic file_system joinpath false root png p1 d1 k1
                "image/png" "image" "png" P1 eq_refl (or_introl eq_refl)
                A1 A2 A3) as W1.
  assert (W2 := worker_filtered magic file_system joinpath root html p2 d2 k2
                  "text/html" "text" "html" P2 eq_refl ltac:(discriminate)).
  assert (W3 := worker_bad_start magic file_system joinpath false root bad
                  bad_data C3 S3).
  unfold process_all_files.
  apply Permutation_three in Hc as [->|[->|[->|[->|[->| ->]]]]];
    cbn [map]; rewrite W1, W2, W3; cbn [snd fst collect bind List.concat app];
    eexists; (split; [reflexivity|]);
    cbn [files_count effects final written List.length];
    (split; [reflexivity|]); (split; [reflexivity|]);
    unfold aggregate; cbn [consume_from consume initial_stats sorted_count
                           types domains];
    (split; [reflexivity|]);
    (split; intros [key|]; cbn [dict_get key_eqb];
     rewrite !dict_get_increment, ?dict_item_increment;
     cbn [key_eqb dict_item dict_get]; rewrite ?String.eqb_refl;
     try (destruct (String.eqb _ key)); reflexivity).
Qed.

End ThreeFiles.

(** ** The properties on the sample data *)

Section SampleData.

(** The sample runs are on linux: the paths are POSIX paths. *)
Notation "p // s" := (posix_joinpath p s) (at level 40, left associativity).

(** A payload that holds the end marker is cut at it: the scan has no
    escape. *)
Lemma marker_in_payload_example :
  parse_cache_file toy_magic
    (synthetic (len (list_byte_of_string attachment_url) + 4) (repeat x00 12)
       (list_byte_of_string attachment_url)
       (png_bytes ++ END_SUFFIX ++ [x00]) [])
  = Ok (png_bytes, "cdn.discordapp.com"%string, Some "attachments"%string,
        "image/png"%string)
  /\ png_bytes <> png_bytes ++ END_SUFFIX ++ [x00].
Proof. split; [vm_compute; reflexivity|discriminate]. Qed.

Lemma synthetic_record_example :
  parse_cache_file toy_magic (record attachment_url png_bytes [x00])
  = Ok (png_bytes, "cdn.discordapp.com"%string,
        kind_of "cdn.discordapp.com" "attachments", toy_magic png_bytes).
Proof.
  apply (synthetic_record_decodes toy_magic (repeat x00 12)
           (list_byte_of_string attachment_url) png_bytes [x00]
           "https:" EmptyString "cdn.discordapp.com" "attachments").
  - reflexivity.
  - vm_compute. reflexivity.
  - vm_compute. reflexivity.
  - repeat (split; [reflexivity|]). exists "/1/2/cat.png"%string.
    split; [reflexivity|]. right. now exists "1/2/cat.png"%string.
  - vm_compute. reflexivity.
  - discriminate.
Qed.

Lemma C1_witness :
  parse_cache_file toy_magic (record attachment_url png_bytes [])
  = Raise (InvalidCacheFileFormat NoEndSuffix).
Proof.
  apply (C1_record_closed_by_the_marker_is_refused toy_magic (repeat x00 12)
           (list_byte_of_string attachment_url) png_bytes
           "https:" EmptyString "cdn.discordapp.com" "attachments").
  - reflexivity.
  - vm_compute. reflexivity.
  - vm_compute. reflexivity.
  - repeat (split; [reflexivity|]). exists "/1/2/cat.png"%string.
    split; [reflexivity|]. right. now exists "1/2/cat.png"%string.
  - vm_compute. reflexivity.
Defined.

(** C2, on a record whose end marker closes the buffer.  The start marker
    is there, the URL is not empty and the end marker sits right after the
    payload, yet the loop test [index + 11 < len] stops one position short
    of it and the decoder raises [InvalidCacheFileFormat], with the
    message that the end suffix was not found.  And a buffer with a
    one-segment URL and no end marker at all raises [ValueError], from the
    unpacking of one piece where four are wanted, not
    [InvalidCacheFileFormat]. *)
Theorem C2_marker_at_end_of_buffer_is_missed :
  let data := record attachment_url png_bytes [] in
  startswith data START_SUFFIX = true
  /\ parse_origin data
     = Ok (78%N, "cdn.discordapp.com"%string, Some "attachments"%string)
  /\ marker_at (drop 78 data) (len png_bytes) = true
  /\ parse_cache_file toy_magic data
     = Raise (InvalidCacheFileFormat NoEndSuffix)
  /\ parse_cache_file toy_magic (header 5 (repeat x00 12) ++ [x61])
     = Raise (ValueError (NotEnoughValues 4 1)).
Proof. vm_compute. repeat split; reflexivity. Qed.

(** C3, as first stated, fails on the three sample files: [sorted_count]
    is not 2, and the [None] key of both mappings holds 2, one of them for
    the file that does not decode. *)
Lemma C3_counterexample :
  exists r,
    process_all_files toy_magic accepting posix_joinpath false out_root
      three_files three_files = Ok r
    /\ List.length (written (effects r)) = 1
    /\ files_count r = 3
    /\ sorted_count (final r) <> 2
    /\ dict_get (types (final r)) None = Some 2
    /\ dict_get (domains (final r)) None = Some 2.
Proof.
  eexists. split; [vm_compute; reflexivity|].
  cbn. repeat split; discriminate.
Qed.

Lemma C3_witness :
  exists r,
    process_all_files toy_magic accepting posix_joinpath false out_root
      three_files [bad_file; png_file; html_file] = Ok r
    /\ files_count r = 3
    /\ written (effects r)
       = [(out_root // "image" // "other" // "media.tenor.com"
           // "f_0001.png", png_bytes)]
    /\ sorted_count (final r) = 1
    /\ dict_eq (types (final r)) [(Some "image/png"%string, 1); (None, 2)]
    /\ dict_eq (domains (final r))
         [(Some "media.tenor.com"%string, 1); (None, 2)].
Proof.
  apply (proj2 (C3_three_file_run toy_magic accepting posix_joinpath)
           out_root png_file html_file bad_file
           (x00 :: tl (record tenor_url png_bytes [x00]))
           png_bytes html_bytes "media.tenor.com"%string
           "example.org"%string None None
           [bad_file; png_file; html_file]).
  - reflexivity.
  - reflexivity.
  - reflexivity.
  - vm_compute. reflexivity.
  - vm_compute. reflexivity.
  - reflexivity.
  - reflexivity.
  - reflexivity.
  - reflexivity.
  - reflexivity.
  - unfold completion_of. cbn [filter is_file png_file html_file bad_file].
    apply Permutation_sym.
    exact (Permutation_cons_append [png_file; html_file] bad_file).
Defined.

(** C4, on the sample files.  A record whose URL has a single segment, one
    whose URL is not UTF-8 and a file that cannot be read make the worker
    raise [ValueError], [UnicodeDecodeError] and [OSError]: only
    [InvalidCacheFileFormat] is caught.  The exception leaves the run, even
    though the other file of the directory is a good record and the file
    system accepts everything. *)
Theorem C4_exception_leaves_the_worker_and_the_run :
  create_file_from_cache_file toy_magic accepting posix_joinpath false
    out_root short_url_file
  = ([], Raise (ValueError (NotEnoughValues 4 1)))
  /\ create_file_from_cache_file toy_magic accepting posix_joinpath false
       out_root latin1_url_file
     = ([], Raise (UnicodeDecodeError [xe9]))
  /\ create_file_from_cache_file toy_magic accepting posix_joinpath false
       out_root (Entry "f_0006" true None)
     = ([], Raise OSError)
  /\ process_all_files toy_magic accepting posix_joinpath false out_root
       [png_file; short_url_file] [png_file; short_url_file]
     = Raise (ValueError (NotEnoughValues 4 1)).
Proof. vm_compute. repeat split; reflexivity. Qed.

Lemma C5_witness :
  stats_eq
    (aggregate [(Some "a"%string, Some "image/png"%string); (None, None)])
    (aggregate [(None, None); (Some "a"%string, Some "image/png"%string)]).
Proof.
  apply C5_statistics_ignore_arrival_order. apply perm_swap.
Defined.

Lemma C6_witness :
  exists url s0 s1 s3,
    decode (slice 28 (24 + from_bytes_little
                            (slice 12 16 (record attachment_url png_bytes [x00])))
                  (record attachment_url png_bytes [x00])) = Ok url
    /\ segments url s0 s1 "cdn.discordapp.com" s3
    /\ (Some "attachments"%string = None
        <-> contains "discord" "cdn.discordapp.com" = false
            \/ s3 = "api"%string)
    /\ (~ (contains "discord" "cdn.discordapp.com" = false
           \/ s3 = "api"%string)
        -> Some "attachments"%string = Some s3).
Proof.
  apply (C6_kind_rule toy_magic (record attachment_url png_bytes [x00])
           png_bytes "cdn.discordapp.com" (Some "attachments"%string)
           "image/png").
  vm_compute. reflexivity.
Defined.

Lemma C7_witness :
  let data := record attachment_url ([x2a] ++ END_SUFFIX ++ [x2b]) [x00] in
  parse_cache_file toy_magic data
  = Ok (take 1 (drop 78 data), "cdn.discordapp.com"%string,
        Some "attachments"%string, toy_magic (take 1 (drop 78 data))).
Proof.
  cbn zeta.
  apply (C7_payload_stops_at_first_marker toy_magic _ 78 _ _ 1 13)%N.
  - reflexivity.
  - vm_compute. reflexivity.
  - vm_compute. reflexivity.
  - intros k Hk. assert (k = 0%N) as -> by lia. vm_compute. reflexivity.
  - lia.
  - vm_compute. reflexivity.
Defined.

Lemma C8_witness :
  let full_path :=
    out_root // "image" // "other" // "media.tenor.com" // "f_0001.png" in
  let work :=
    create_file_from_cache_file toy_magic strict posix_joinpath false
      out_root png_file in
  (forall p data, In (p, data) (written (fst work)) ->
                  p = full_path /\ data = png_bytes)
  /\ (forall v, snd work = Ok v ->
        v = (Some "media.tenor.com"%string, Some "image/png"%string)
        /\ written (fst work) = [(full_path, png_bytes)]
        /\ In (Mkdir (out_root // "image" // "other" // "media.tenor.com"))
              (fst work))
  /\ (written (fst work) <> [] ->
      snd work = Ok (Some "media.tenor.com"%string,
                     Some "image/png"%string))
  /\ (strict (Mkdir (out_root // "image" // "other" // "media.tenor.com"))
      = None ->
      strict (Touch full_path) = None ->
      strict (WriteBytes full_path png_bytes) = None ->
      written (fst work) = [(full_path, png_bytes)]
      /\ In (Mkdir (out_root // "image" // "other" // "media.tenor.com"))
            (fst work)
      /\ snd work = Ok (Some "media.tenor.com"%string,
                        Some "image/png"%string)).
Proof.
  apply (C8_destination_path toy_magic strict posix_joinpath false out_root
           png_file png_bytes "media.tenor.com" None "image/png" "image" "png").
  - vm_compute. reflexivity.
  - reflexivity.
  - left. reflexivity.
Defined.

Lemma C10_witness :
  parse_cache_file toy_magic
    (header 4 (repeat x00 12) ++ png_bytes ++ END_SUFFIX ++ [x00])
  = Raise (InvalidCacheFileFormat
             (NoUrl (header 4 (repeat x00 12) ++ png_bytes ++ END_SUFFIX
                     ++ [x00]))).
Proof.
  apply C10_short_length_field_is_rejected.
  - reflexivity.
  - vm_compute. discriminate.
Defined.

(** C9, as first stated, fails: two buffers with an empty URL that differ
    in reserved bytes only are refused with two different messages, each
    quoting its own buffer. *)
Lemma C9_counterexample :
  same_outside_reserved empty_url_buffer (scribble empty_url_buffer)
  /\ parse_cache_file toy_magic empty_url_buffer
     = Raise (InvalidCacheFileFormat (NoUrl empty_url_buffer))
  /\ parse_cache_file toy_magic (scribble empty_url_buffer)
     = Raise (InvalidCacheFileFormat (NoUrl (scribble empty_url_buffer)))
  /\ parse_cache_file toy_magic empty_url_buffer
     <> parse_cache_file toy_magic (scribble empty_url_buffer).
Proof.
  split; [|split; [vm_compute; reflexivity|split; [vm_compute; reflexivity|]]].
  - split; [reflexivity|]. intros i Hi.
    do 28 (destruct i as [|i];
           [first [reflexivity | cbv in Hi; discriminate Hi]|]).
    destruct i; reflexivity.
  - vm_compute. discriminate.
Qed.

Lemma C9_witness :
  parse_cache_file toy_magic (record attachment_url png_bytes [x00])
  = parse_cache_file toy_magic
      (scribble (record attachment_url png_bytes [x00]))
  \/ (parse_cache_file toy_magic (record attachment_url png_bytes [x00])
      = Raise (InvalidCacheFileFormat
                 (NoUrl (record attachment_url png_bytes [x00])))
      /\ parse_cache_file toy_magic
           (scribble (record attachment_url png_bytes [x00]))
         = Raise (InvalidCacheFileFormat
                    (NoUrl (scribble (record attachment_url png_bytes
                                        [x00]))))).
Proof.
  apply C9_reserved_bytes_reach_only_the_message. split; [reflexivity|].
  intros i Hi.
  do 98 (destruct i as [|i];
         [first [reflexivity | cbv in Hi; discriminate Hi]|]).
  destruct i; reflexivity.
Defined.

End SampleData.

(** ** More on slices *)

Lemma take_drop {A} (n : N) (l : list A) : take n l ++ drop n l = l.
Proof. rewrite take_firstn, drop_skipn. apply firstn_skipn. Qed.

Lemma take_all {A} (n : N) (l : list A) : (len l <= n)%N -> take n l = l.
Proof.
  unfold len. intro H. rewrite take_firstn. apply firstn_all2. lia.
Qed.

Lemma drop_app_le {A} (n : N) (a b : list A) :
  (n <= len a)%N -> drop n (a ++ b) = drop n a ++ b.
Proof.
  unfold len. intro H. rewrite !drop_skipn, skipn_app.
  replace (N.to_nat n - List.length a) with 0 by lia. reflexivity.
Qed.

Lemma slice_app_le {A} (i j : N) (a b : list A) :
  (j <= len a)%N -> slice i j (a ++ b) = slice i j a.
Proof.
  intro H. unfold slice.
  destruct (N.le_gt_cases i j) as [Hij|Hij].
  - rewrite drop_app_le by lia. apply take_app_ge. rewrite len_drop. lia.
  - replace (j - i)%N with 0%N by lia. now rewrite !take_0.
Qed.

Lemma take_take {A} (i j : N) (l : list A) :
  (i <= j)%N -> take i (take j l) = take i l.
Proof.
  intro H. rewrite !take_firstn, firstn_firstn. f_equal. lia.
Qed.

Lemma drop_take {A} (i j : N) (l : list A) :
  drop i (take j l) = take (j - i) (drop i l).
Proof.
  rewrite !take_firstn, !drop_skipn, skipn_firstn_comm. f_equal. lia.
Qed.

(** An occurrence in a prefix is an occurrence in the whole. *)
Lemma marker_at_take (region : bytes) (i k : N) :
  (k + len END_SUFFIX <= i)%N ->
  marker_at (take i region) k = marker_at region k.
Proof.
  intro H. unfold marker_at. rewrite !slice_drop, drop_take, take_take by lia.
  reflexivity.
Qed.

Lemma marker_at_app (region extra : bytes) (k : N) :
  (k + len END_SUFFIX <= len region)%N ->
  marker_at (region ++ extra) k = marker_at region k.
Proof.
  intro H. unfold marker_at. now rewrite slice_app_le.
Qed.

Lemma bytes_in_marker_at : forall p : bytes,
  bytes_in END_SUFFIX p = true ->
  exists k, (k + len END_SUFFIX <= len p)%N /\ marker_at p k = true.
Proof.
  induction p as [|b t IH]; intro H; [discriminate|].
  cbn [bytes_in] in H. apply orb_true_iff in H as [H|H].
  - exists 0%N. rewrite startswith_take, <- marker_at_0 in H.
    split; [|exact H]. now apply marker_at_len in H.
  - destruct (IH H) as (k & Hk & Mk). exists (N.succ k).
    rewrite marker_at_succ, len_cons. split; [lia|exact Mk].
Qed.

(** ** More on the decoder *)

Lemma length_string_of_list_byte (b : bytes) :
  String.length (string_of_list_byte b) = List.length b.
Proof.
  unfold string_of_list_byte.
  induction b as [|x b IH]; cbn; [reflexivity|now rewrite IH].
Qed.

Lemma length_append (a b : string) :
  String.length (a ++ b) = String.length a + String.length b.
Proof. induction a as [|c a IH]; cbn; [reflexivity|now rewrite IH]. Qed.

Lemma segments_length url s0 s1 s2 s3 :
  segments url s0 s1 s2 s3 -> 3 <= String.length url.
Proof.
  intros (_ & _ & _ & _ & rest & -> & _).
  rewrite !length_append. cbn [String.length]. lia.
Qed.

Section DecoderLayout.

Variable magic : bytes -> string.

(** X1.  A buffer that decodes has the layout the decoder assumes: from the
    data start on it holds exactly the returned payload, then the end
    marker, then at least one more byte, and the data start lies inside
    the buffer. *)
Theorem X1_decoded_buffer_layout :
  forall (data output : bytes) (domain : string) (kind : option string)
         (mime_type : string),
  parse_cache_file magic data = Ok (output, domain, kind, mime_type) ->
  let data_start := (24 + from_bytes_little (slice 12 16 data))%N in
  exists rest,
    rest <> []
    /\ data = take data_start data ++ output ++ END_SUFFIX ++ rest
    /\ len (take data_start data) = data_start.
Proof.
  intros data output domain kind mime_type H. cbn zeta.
  apply parse_cache_file_Ok_inv in H
    as (_ & _ & ds & i & O & -> & Mi & _ & Hlen).
  pose proof (parse_origin_inv _ _ _ _ O) as (<- & _).
  rewrite len_drop in Hlen. change (len END_SUFFIX) with 11%N in Hlen.
  set (region := drop ds data) in *.
  exists (drop 11 (drop i region)). split; [|split].
  - intro E. apply (f_equal len) in E. rewrite !len_drop in E.
    unfold region in E. rewrite len_drop in E.
    change (len (@nil byte)) with 0%N in E. lia.
  - unfold marker_at in Mi. rewrite slice_drop in Mi.
    apply bytes_eqb_eq in Mi. rewrite <- Mi at 1.
    change (len END_SUFFIX) with 11%N. unfold region.
    now rewrite !take_drop.
  - rewrite len_take. lia.
Qed.

(** X2.  The returned payload never holds the end marker. *)
Theorem X2_payload_holds_no_end_marker :
  forall (data output : bytes) (domain : string) (kind : option string)
         (mime_type : string),
  parse_cache_file magic data = Ok (output, domain, kind, mime_type) ->
  bytes_in END_SUFFIX output = false.
Proof.
  intros data output domain kind mime_type H.
  apply parse_cache_file_Ok_inv in H
    as (_ & _ & ds & i & _ & -> & _ & Hfirst & _).
  destruct (bytes_in END_SUFFIX (take i (drop ds data))) eqn:B; [|reflexivity].
  apply bytes_in_marker_at in B as (k & Hk & Mk).
  rewrite len_take in Hk.
  rewrite marker_at_take in Mk by lia.
  rewrite Hfirst in Mk; [discriminate|].
  change (len END_SUFFIX) with 11%N in Hk. lia.
Qed.

(** X7.  No buffer shorter than 43 bytes decodes: 28 bytes of header, a
    URL with three ['/'], the end marker and one byte after it. *)
Theorem X7_shortest_record :
  forall (data output : bytes) (domain : string) (kind : option string)
         (mime_type : string),
  parse_cache_file magic data = Ok (output, domain, kind, mime_type) ->
  (43 + len output <= len data)%N.
Proof.
  intros data output domain kind mime_type H.
  apply parse_cache_file_Ok_inv in H
    as (_ & _ & ds & i & O & -> & _ & _ & Hlen).
  apply parse_origin_inv in O as (_ & url & s0 & s1 & s3 & D & _ & S & _).
  apply segments_length in S.
  unfold decode in D. destruct (utf8_valid _); [|discriminate].
  injection D as <-. rewrite length_string_of_list_byte in S.
  assert (L : (3 <= len (slice 28 ds data))%N) by (unfold len; lia).
  rewrite slice_28, len_take, len_drop in L.
  rewrite len_drop in Hlen. change (len END_SUFFIX) with 11%N in Hlen.
  rewrite len_take, len_drop. lia.
Qed.

(** X6.  Bytes appended to a buffer that decodes do not change the
    result: what follows the end marker is not read. *)
Theorem X6_trailing_bytes_are_not_read :
  forall (data extra output : bytes) (domain : string)
         (kind : option string) (mime_type : string),
  parse_cache_file magic data = Ok (output, domain, kind, mime_type) ->
  parse_cache_file magic (data ++ extra)
  = Ok (output, domain, kind, mime_type).
Proof.
  intros data extra output domain kind mime_type H.
  apply parse_cache_file_Ok_inv in H
    as (Hs & -> & ds & i & O & -> & Mi & Hfirst & Hlen).
  pose proof (parse_origin_inv _ _ _ _ O)
    as (Eds & url & s0 & s1 & s3 & D & _ & S & Ek).
  rewrite len_drop in Hlen. change (len END_SUFFIX) with 11%N in Hlen.
  assert (O' : parse_origin (data ++ extra) = Ok (ds, domain, kind)).
  { rewrite Ek, Eds, <- (slice_app_le 12 16 data extra) by lia.
    apply (parse_origin_segments _ url s0 s1); [|exact S].
    rewrite (slice_app_le 12 16) by lia. rewrite <- Eds.
    now rewrite (slice_app_le 28 ds) by lia. }
  assert (R : drop ds (data ++ extra) = drop ds data ++ extra)
    by (apply drop_app_le; lia).
  rewrite (parse_cache_file_first magic (data ++ extra) ds domain kind i).
  - rewrite R, take_app_ge; [reflexivity|rewrite len_drop; lia].
  - rewrite startswith_take in *. change (len START_SUFFIX) with 8%N in *.
    rewrite take_app_ge by lia. exact Hs.
  - exact O'.
  - rewrite R, marker_at_app; [exact Mi|].
    rewrite len_drop. change (len END_SUFFIX) with 11%N. lia.
  - intros k Hk. rewrite R, marker_at_app; [now apply Hfirst|].
    rewrite len_drop. change (len END_SUFFIX) with 11%N. lia.
  - rewrite R, len_app, len_drop. change (len END_SUFFIX) with 11%N. lia.
Qed.

End DecoderLayout.

(** ** Which exception, when *)

Lemma length_split sep : forall s m,
  List.length (split sep s m) = S (Nat.min m (count_char sep s)).
Proof.
  induction s as [|c t IH]; intros [|m]; try reflexivity.
  cbn [split count_char]. destruct (Ascii.eqb c sep).
  - cbn [List.length]. rewrite IH. reflexivity.
  - specialize (IH (S m)).
    destruct (split sep t (S m)) as [|h r]; [discriminate IH|exact IH].
Qed.

Lemma parse_origin_value_error (data : bytes) (message : value_message) :
  parse_origin data = Raise (ValueError message)
  <-> exists url,
        decode (slice 28 (24 + from_bytes_little (slice 12 16 data)) data)
        = Ok url
        /\ url <> EmptyString /\ count_char "/" url < 3
        /\ message = NotEnoughValues 4 (S (count_char "/" url)).
Proof.
  unfold parse_origin.
  destruct (decode _) as [url|e] eqn:D; cbn [bind].
  - pose proof (length_split "/" url 4) as L.
    destruct (String.eqb_spec url EmptyString) as [->|Hne].
    + split; [discriminate|]. intros (u & [= <-] & Hu & _). now contradiction Hu.
    + destruct (split "/" url 4) as [|a [|b [|c [|d l]]]];
        cbn [List.length] in L.
      1-4: split;
        [intros [= <-]; exists url; repeat split; auto; [lia|f_equal; lia]
        |intros (u & [= <-] & _ & Hu & ->); do 3 f_equal; cbn [List.length];
         lia].
      split; [discriminate|]. intros (u & [= <-] & _ & Hu & _). lia.
  - split.
    + unfold decode in D. destruct (utf8_valid _); [discriminate|].
      injection D as <-. discriminate.
    + intros (u & [=] & _).
Qed.

Lemma parse_origin_unicode_error (data object : bytes) :
  parse_origin data = Raise (UnicodeDecodeError object)
  <-> object = slice 28 (24 + from_bytes_little (slice 12 16 data)) data
      /\ utf8_valid object = false.
Proof.
  unfold parse_origin, decode.
  destruct (utf8_valid (slice 28 _ data)) eqn:U; cbn [bind].
  - destruct (String.eqb _ _);
      [split; [discriminate|intros [-> C]; congruence]|].
    destruct (split "/" _ 4) as [|a [|b [|c [|d l]]]];
      (split; [discriminate|intros [-> C]; congruence]).
  - split; [intros [= <-]; now split|intros [-> _]; reflexivity].
Qed.

Lemma parse_origin_no_os_error (data : bytes) :
  parse_origin data <> Raise OSError.
Proof.
  unfold parse_origin, decode.
  destruct (utf8_valid _); cbn [bind]; [|discriminate].
  destruct (String.eqb _ _); [discriminate|].
  destruct (split "/" _ 4) as [|a [|b [|c [|d l]]]]; discriminate.
Qed.

Section Exceptions.

Variable magic : bytes -> string.

(** After the URL part, the scan either succeeds or raises
    [InvalidCacheFileFormat]; every other exception comes from the URL. *)
Lemma parse_cache_file_other_error (data : bytes) (e : exn) :
  isinstance e InvalidCacheFileFormatClass = false ->
  (parse_cache_file magic data = Raise e
   <-> startswith data START_SUFFIX = true /\ parse_origin data = Raise e).
Proof.
  intro He. rewrite parse_cache_file_unfold.
  destruct (startswith data START_SUFFIX); cbn [negb].
  - destruct (parse_origin data) as [[[ds domain] kind]|e'] eqn:O; cbn [bind].
    + destruct (scan_rest _ []).
      * split; [discriminate|intros [_ C]; discriminate C].
      * split; [intros [= <-]; discriminate He
               |intros [_ C]; discriminate C].
    + split; [intros [= ->]; auto|intros [_ [= ->]]; reflexivity].
  - split; [intros [= <-]; discriminate He|intros [C _]; discriminate C].
Qed.

(** X3.  [parse_cache_file] raises [InvalidCacheFileFormat] in exactly
    three cases: the buffer does not start with the start marker; the URL
    slice is empty; or the URL parses and no end marker that is followed
    by at least one byte occurs from the data start on.  Each case has its
    own message, and the second quotes the buffer. *)
Theorem X3_invalid_format_cases : forall data : bytes,
  let data_start := (24 + from_bytes_little (slice 12 16 data))%N in
  ((exists message,
      parse_cache_file magic data = Raise (InvalidCacheFileFormat message))
   <-> startswith data START_SUFFIX = false
       \/ (startswith data START_SUFFIX = true
           /\ decode (slice 28 data_start data) = Ok EmptyString)
       \/ (startswith data START_SUFFIX = true
           /\ (exists domain kind,
                 parse_origin data = Ok (data_start, domain, kind))
           /\ forall i, (i + len END_SUFFIX < len (drop data_start data))%N ->
                        marker_at (drop data_start data) i = false))
  /\ (parse_cache_file magic data = Raise (InvalidCacheFileFormat NoStartPrefix)
      <-> startswith data START_SUFFIX = false)
  /\ (parse_cache_file magic data = Raise (InvalidCacheFileFormat (NoUrl data))
      <-> startswith data START_SUFFIX = true
          /\ decode (slice 28 data_start data) = Ok EmptyString)
  /\ (parse_cache_file magic data = Raise (InvalidCacheFileFormat NoEndSuffix)
      <-> startswith data START_SUFFIX = true
          /\ (exists domain kind,
                parse_origin data = Ok (data_start, domain, kind))
          /\ forall i, (i + len END_SUFFIX < len (drop data_start data))%N ->
                       marker_at (drop data_start data) i = false).
Proof.
  intro data. cbn zeta. split; [apply parse_cache_file_format_error|].
  destruct (parse_cache_file_format_messages magic data) as (A & B & C & _).
  auto.
Qed.

(** X4.  [parse_cache_file] raises an exception of class [ValueError],
    [UnicodeDecodeError] being one, exactly when the buffer starts with
    the start marker and its URL slice either is not well-formed UTF-8 or
    is not empty and has fewer than three ['/'], whatever follows the URL.
    It is a plain [ValueError] exactly in the second case: the unpacking
    wants four pieces and gets one more than there are ['/']. *)
Theorem X4_value_error_cases : forall data : bytes,
  let url_slice :=
    slice 28 (24 + from_bytes_little (slice 12 16 data)) data in
  ((exists e, parse_cache_file magic data = Raise e
              /\ isinstance e ValueErrorClass = true)
   <-> startswith data START_SUFFIX = true
       /\ (utf8_valid url_slice = false
           \/ exists url, decode url_slice = Ok url
                          /\ url <> EmptyString /\ count_char "/" url < 3))
  /\ forall message,
       parse_cache_file magic data = Raise (ValueError message)
       <-> startswith data START_SUFFIX = true
           /\ exists url, decode url_slice = Ok url
                          /\ url <> EmptyString /\ count_char "/" url < 3
                          /\ message
                             = NotEnoughValues 4 (S (count_char "/" url)).
Proof.
  intro data. cbn zeta.
  assert (V : forall message,
    parse_cache_file magic data = Raise (ValueError message)
    <-> startswith data START_SUFFIX = true
        /\ exists url,
             decode (slice 28 (24 + from_bytes_little (slice 12 16 data)) data)
             = Ok url
             /\ url <> EmptyString /\ count_char "/" url < 3
             /\ message = NotEnoughValues 4 (S (count_char "/" url))).
  { intro m. rewrite parse_cache_file_other_error by reflexivity.
    now rewrite parse_origin_value_error. }
  split; [|exact V]. split.
  - intros (e & H & I). destruct e as [m|object|m| | |code]; try discriminate I.
    + apply parse_cache_file_other_error in H as [Hs H]; [|reflexivity].
      apply parse_origin_unicode_error in H as [-> U]. auto.
    + apply V in H as (Hs & url & D & Hne & Hc & _).
      split; [exact Hs|]. right. now exists url.
  - intros [Hs [U|(url & D & Hne & Hc)]].
    + exists (UnicodeDecodeError
                (slice 28 (24 + from_bytes_little (slice 12 16 data)) data)).
      split; [|reflexivity].
      apply parse_cache_file_other_error; [reflexivity|].
      split; [exact Hs|]. apply parse_origin_unicode_error.
      split; [reflexivity|exact U].
    + exists (ValueError (NotEnoughValues 4 (S (count_char "/" url)))).
      split; [|reflexivity]. apply V. split; [exact Hs|]. now exists url.
Qed.

(** X5.  [parse_cache_file] raises [UnicodeDecodeError] exactly when the
    buffer starts with the start marker and its URL slice is not
    well-formed UTF-8, the exception then holding that slice, and it never
    raises [OSError]. *)
Theorem X5_unicode_error_cases : forall data : bytes,
  let url_slice :=
    slice 28 (24 + from_bytes_little (slice 12 16 data)) data in
  ((exists object,
      parse_cache_file magic data = Raise (UnicodeDecodeError object))
   <-> startswith data START_SUFFIX = true /\ utf8_valid url_slice = false)
  /\ (forall object,
        parse_cache_file magic data = Raise (UnicodeDecodeError object) ->
        object = url_slice)
  /\ parse_cache_file magic data <> Raise OSError.
Proof.
  intro data. cbn zeta.
  assert (U : forall object,
    parse_cache_file magic data = Raise (UnicodeDecodeError object)
    <-> startswith data START_SUFFIX = true
        /\ object = slice 28 (24 + from_bytes_little (slice 12 16 data)) data
        /\ utf8_valid object = false).
  { intro object. rewrite parse_cache_file_other_error by reflexivity.
    now rewrite parse_origin_unicode_error. }
  split; [|split].
  - split.
    + intros [object H]. apply U in H as (Hs & -> & H). auto.
    + intros [Hs H]. eexists. apply U. auto.
  - intros object H. now apply U in H as (_ & -> & _).
  - intro H. apply parse_cache_file_other_error in H as [_ H];
      [|reflexivity]. now apply parse_origin_no_os_error in H.
Qed.

End Exceptions.

(** ** Counting with [dict_increment] *)

Lemma dict_get_in_item (d : dict) (key : option string) :
  dict_get d key = if dict_in d key then Some (dict_item d key) else None.
Proof. unfold dict_in, dict_item. now destruct (dict_get d key). Qed.

Lemma dict_in_increment (d : dict) (key key' : option string) :
  dict_in (dict_increment d key) key' = key_eqb key key' || dict_in d key'.
Proof.
  unfold dict_in. rewrite dict_get_increment.
  now destruct (key_eqb key key').
Qed.

Lemma dict_item_fold (key : option string) : forall keys d,
  dict_item (fold_left dict_increment keys d) key
  = dict_item d key + count_key key keys.
Proof.
  induction keys as [|k rest IH]; intro d; cbn [fold_left count_key].
  - lia.
  - rewrite IH, dict_item_increment. lia.
Qed.

Lemma dict_in_fold (key : option string) : forall keys d,
  dict_in (fold_left dict_increment keys d) key
  = dict_in d key || negb (count_key key keys =? 0).
Proof.
  induction keys as [|k rest IH]; intro d; cbn [fold_left count_key].
  - cbn. now rewrite orb_false_r.
  - rewrite IH, dict_in_increment.
    destruct (key_eqb k key), (dict_in d key); cbn [orb Nat.add];
      try reflexivity; now destruct (count_key key rest).
Qed.

Lemma consume_from_types : forall results st i,
  types (consume_from st i results)
  = fold_left dict_increment (map snd results) (types st).
Proof.
  induction results as [|[d m] rest IH]; intros st i; [reflexivity|].
  cbn [consume_from map fold_left snd]. now rewrite IH.
Qed.

Lemma consume_from_domains : forall results st i,
  domains (consume_from st i results)
  = fold_left dict_increment (map fst results) (domains st).
Proof.
  induction results as [|[d m] rest IH]; intros st i; [reflexivity|].
  cbn [consume_from map fold_left fst]. now rewrite IH.
Qed.

Lemma dict_get_fold_empty (key : option string) (keys : list (option string)) :
  dict_get (fold_left dict_increment keys []) key
  = if count_key key keys =? 0 then None else Some (count_key key keys).
Proof.
  rewrite dict_get_in_item, dict_in_fold, dict_item_fold.
  cbn. now destruct (count_key key keys =? 0).
Qed.

(** X8.  After the result loop, each mapping holds for every key the
    number of results that carried it, and no entry for a key that no
    result carried: a missing key starts at one, a present key goes up by
    one, and no other key moves. *)
Theorem X8_mappings_count_occurrences :
  forall (results : list (option string * option string))
         (key : option string),
  dict_get (types (aggregate results)) key
  = (if count_key key (map snd results) =? 0 then None
     else Some (count_key key (map snd results)))
  /\ dict_get (domains (aggregate results)) key
     = (if count_key key (map fst results) =? 0 then None
        else Some (count_key key (map fst results))).
Proof.
  intros results key. unfold aggregate.
  rewrite consume_from_types, consume_from_domains.
  split; apply dict_get_fold_empty.
Qed.

(** ** The order of the keys *)

Lemma dict_in_mem_key (d : dict) (key : option string) :
  dict_in d key = mem_key (map fst d) key.
Proof.
  unfold dict_in, mem_key.
  induction d as [|[k v] d IH]; cbn [dict_get map existsb fst]; [reflexivity|].
  destruct (key_eqb k key); [reflexivity|exact IH].
Qed.

Lemma keys_dict_set (d : dict) (key : option string) (v : nat) :
  map fst (dict_set d key v)
  = if dict_in d key then map fst d else map fst d ++ [key].
Proof.
  unfold dict_in.
  induction d as [|[k w] d IH]; cbn [dict_set dict_get map fst app];
    [reflexivity|].
  destruct (key_eqb k key); cbn [map fst]; [reflexivity|].
  rewrite IH. now destruct (dict_get d key).
Qed.

(** [dict_increment] leaves the keys in place and puts a new key last. *)
Lemma keys_dict_increment (d : dict) (key : option string) :
  map fst (dict_increment d key)
  = if dict_in d key then map fst d else map fst d ++ [key].
Proof.
  unfold dict_increment. destruct (dict_in d key) eqn:I; cbn [negb].
  - now rewrite keys_dict_set, I.
  - rewrite keys_dict_set.
    assert (dict_in (dict_set d key 0) key = true) as ->
      by (unfold dict_in; now rewrite dict_get_set, key_eqb_refl).
    now rewrite keys_dict_set, I.
Qed.

Lemma filter_filter_weaker {A} (p q : A -> bool) (l : list A) :
  (forall x, p x = true -> q x = true) ->
  filter p (filter q l) = filter p l.
Proof.
  intro H. induction l as [|x l IH]; cbn [filter]; [reflexivity|].
  destruct (q x) eqn:Q; cbn [filter].
  - now rewrite IH.
  - destruct (p x) eqn:P; [|exact IH]. apply H in P. congruence.
Qed.

Lemma filter_filter_and {A} (p q : A -> bool) (l : list A) :
  filter p (filter q l) = filter (fun x => q x && p x) l.
Proof.
  induction l as [|x l IH]; cbn [filter]; [reflexivity|].
  destruct (q x); cbn [filter andb]; [|exact IH].
  destruct (p x); now rewrite IH.
Qed.

Lemma keys_fold : forall keys d,
  map fst (fold_left dict_increment keys d)
  = map fst d
    ++ filter (fun x => negb (mem_key (map fst d) x)) (distinct keys).
Proof.
  induction keys as [|k rest IH]; intro d; cbn [fold_left distinct filter].
  - now rewrite app_nil_r.
  - rewrite IH, keys_dict_increment, dict_in_mem_key.
    destruct (mem_key (map fst d) k) eqn:M; cbn [negb].
    + f_equal. symmetry. apply filter_filter_weaker.
      intros x Hx. destruct (key_eqb k x) eqn:E; [|reflexivity].
      apply key_eqb_eq in E as <-. now rewrite M in Hx.
    + rewrite <- app_assoc. cbn [app]. do 2 f_equal.
      rewrite filter_filter_and. apply filter_ext. intro x.
      unfold mem_key. rewrite existsb_app. cbn [existsb].
      rewrite orb_false_r, negb_orb. apply andb_comm.
Qed.

Lemma filter_all {A} (l : list A) : filter (fun _ => true) l = l.
Proof. induction l as [|x l IH]; cbn; [reflexivity|now rewrite IH]. Qed.

(** X10.  The keys of each mapping stand in the order in which the result
    loop first met them, each once: the tables of the report list content
    types and domains in first-seen order. *)
Theorem X10_keys_in_first_seen_order :
  forall results : list (option string * option string),
  map fst (types (aggregate results)) = distinct (map snd results)
  /\ map fst (domains (aggregate results)) = distinct (map fst results).
Proof.
  intro results. unfold aggregate.
  rewrite consume_from_types, consume_from_domains, !keys_fold.
  cbn [initial_stats types domains map app mem_key existsb negb].
  now rewrite !filter_all.
Qed.

(** ** What a worker can return *)

Section WorkerShape.

Variable magic : bytes -> string.
Variable file_system : fs_op -> option fault.
Variable joinpath : Path -> string -> Path.

Notation "p // s" := (joinpath p s) (at level 40, left associativity).

Lemma fault_is_not_format_error (f : fault) :
  isinstance (exn_of_fault f) InvalidCacheFileFormatClass = false.
Proof. now destruct f. Qed.

(** A worker touches nothing and returns [(None, None)]; or it raises
    something that is not an [InvalidCacheFileFormat], having written no
    file; or it creates one directory, writes one file and returns a
    domain and a content type. *)
Lemma worker_shape (all_files : bool) (root : Path) (f : entry) :
  let w :=
    create_file_from_cache_file magic file_system joinpath all_files root f in
  (fst w = [] /\ snd w = Ok (None, None))
  \/ (exists e, snd w = Raise e
                /\ isinstance e InvalidCacheFileFormatClass = false
                /\ written (fst w) = [])
  \/ (exists dir p data domain mime_type,
        fst w = [Mkdir dir; Touch p; WriteBytes p data]
        /\ snd w = Ok (Some domain, Some mime_type)).
Proof.
  cbn zeta. unfold create_file_from_cache_file.
  destruct (open_and_parse_cache_file magic f)
    as [[[[raw_data domain] kind] mime_type]|e].
  - destruct (split_all "/" mime_type) as [|c [|x [|y l]]];
      try (right; left; eexists; repeat split; reflexivity).
    destruct (negb (String.eqb c "image") && negb all_files);
      [left; now split|].
    match goal with
    | |- context [perform file_system [Mkdir ?d; Touch ?p; WriteBytes ?p ?x]] =>
      destruct (perform_three file_system d p x)
        as [(_ & _ & _ & E)|(g & R & W & _)];
        destruct (perform file_system [Mkdir d; Touch p; WriteBytes p x])
          as [done r]; cbn [fst snd] in *
    end.
    + injection E as -> ->. right. right. now eexists _, _, _, _, _.
    + subst r. right. left. eexists. split; [reflexivity|].
      split; [apply fault_is_not_format_error|exact W].
  - destruct (isinstance e InvalidCacheFileFormatClass) eqn:I.
    + left. now split.
    + right. left. exists e. auto.
Qed.

Lemma collect_raise {A} (l : list (result A)) (e : exn) :
  collect l = Raise e -> In (Raise e) l.
Proof.
  induction l as [|[a|e'] l IH]; cbn [collect bind]; [discriminate| |].
  - destruct (collect l); [discriminate|]. intros [= ->]. right. now apply IH.
  - intros [= ->]. now left.
Qed.

(** X11.  A file that the decoder refuses with [InvalidCacheFileFormat],
    whatever the message, makes the worker touch nothing and return the
    value [(None, None)]; and no [InvalidCacheFileFormat] ever leaves a
    worker or [process_all_files], whatever the files and the file
    system. *)
Theorem X11_invalid_format_is_contained :
  forall (all_files : bool) (root : Path) (files completed : list entry),
  (forall f data message,
     contents f = Some data ->
     parse_cache_file magic data = Raise (InvalidCacheFileFormat message) ->
     create_file_from_cache_file magic file_system joinpath all_files root f
     = ([], Ok (None, None)))
  /\ (forall f e,
        snd (create_file_from_cache_file magic file_system joinpath all_files
               root f)
        = Raise e ->
        isinstance e InvalidCacheFileFormatClass = false)
  /\ (forall e,
        process_all_files magic file_system joinpath all_files root files
          completed
        = Raise e ->
        isinstance e InvalidCacheFileFormatClass = false).
Proof.
  intros all_files root files completed.
  assert (W : forall g e,
    snd (create_file_from_cache_file magic file_system joinpath all_files
           root g)
    = Raise e -> isinstance e InvalidCacheFileFormatClass = false).
  { intros g e H.
    destruct (worker_shape all_files root g)
      as [[_ C]|[(e' & C & I & _)|(? & ? & ? & ? & ? & _ & C)]];
      rewrite C in H; try discriminate. now injection H as <-. }
  split; [|split; [exact W|]].
  - intros f data message Hc Hp.
    now apply (worker_refused magic file_system joinpath all_files root f
                 data message).
  - intros e H. unfold process_all_files in H.
    destruct (collect _) as [results|e'] eqn:C; [discriminate|].
    cbn [bind] in H. injection H as ->. apply collect_raise in C.
    rewrite map_map in C. apply in_map_iff in C as (g & Hg & _).
    now apply W in Hg.
Qed.

(** ** Counts of a run *)

Lemma sorted_count_consume_from : forall results st i,
  sorted_count (consume_from st i results) + count_key None (map snd results)
  = sorted_count st + List.length results.
Proof.
  induction results as [|[d m] rest IH]; intros st i;
    cbn [consume_from map snd count_key List.length]; [lia|].
  specialize (IH (consume st i (d, m)) (S i)).
  destruct m; cbn [consume sorted_count key_eqb] in *; lia.
Qed.

Lemma loop_index_consume_from : forall results st i,
  loop_index (consume_from st i results)
  = match results with
    | [] => loop_index st
    | _ :: _ => i + List.length results - 1
    end.
Proof.
  induction results as [|r rest IH]; intros st i; [reflexivity|].
  cbn [consume_from List.length]. rewrite IH.
  destruct rest; [destruct r; cbn; lia|cbn [List.length]; lia].
Qed.

(** What the values and the effects of the workers add up to. *)
Lemma workers_add_up (all_files : bool) (root : Path) :
  let worker :=
    create_file_from_cache_file magic file_system joinpath all_files root in
  forall (completed : list entry) results,
  collect (map snd (map worker completed)) = Ok results ->
  List.length results = List.length completed
  /\ count_key None (map fst results) = count_key None (map snd results)
  /\ List.length (written (List.concat (map fst (map worker completed))))
     + count_key None (map snd results)
     = List.length results.
Proof.
  cbn zeta. induction completed as [|f rest IH]; intros results H.
  - injection H as <-. repeat split.
  - cbn [map collect bind List.concat] in *.
    destruct (snd (create_file_from_cache_file magic file_system joinpath
                     all_files root f)) as [v|e] eqn:V; [|discriminate].
    cbn [bind] in H.
    destruct (collect _) as [vs|e]; [|discriminate].
    injection H as <-. destruct (IH vs eq_refl) as (L & K & W).
    cbn [List.length map fst snd count_key].
    destruct (worker_shape all_files root f)
      as [[E C]|[(e & C & _)|(dir & p & data & d & m & E & C)]];
      rewrite V in C; try discriminate; injection C as ->; rewrite E;
      cbn [app written List.length fst snd key_eqb]; repeat split; lia.
Qed.

(** X12.  In a run that ends normally, the number of files written is
    [sorted_count]; the [None] key counts the same files in both mappings;
    and [sorted_count] plus that count is the number of files handled. *)
Theorem X12_counts_of_a_run :
  forall (all_files : bool) (root : Path) (files completed : list entry)
         (r : run),
  process_all_files magic file_system joinpath all_files root files completed
  = Ok r ->
  List.length (written (effects r)) = sorted_count (final r)
  /\ dict_item (types (final r)) None = dict_item (domains (final r)) None
  /\ sorted_count (final r) + dict_item (types (final r)) None
     = List.length completed.
Proof.
  intros all_files root files completed r H. unfold process_all_files in H.
  destruct (collect _) as [results|e] eqn:C; [|discriminate].
  cbn [bind] in H. injection H as <-. cbn [effects final].
  destruct (workers_add_up all_files root completed results C) as (L & K & W).
  pose proof (sorted_count_consume_from results initial_stats 0) as S.
  unfold aggregate.
  rewrite consume_from_types, consume_from_domains, !dict_item_fold.
  cbn [initial_stats sorted_count types domains dict_item dict_get] in *.
  repeat split; lia.
Qed.

End WorkerShape.

(** ** Where a worker can write *)

Lemma in_string_append c (a b : string) :
  in_string c (a ++ b) = in_string c a || in_string c b.
Proof.
  induction a as [|x a IH]; cbn [append in_string]; [reflexivity|].
  now rewrite IH, orb_assoc.
Qed.

(** The two parts of a content type hold no ['/']. *)
Lemma split_all_two sep s c x :
  split_all sep s = [c; x] -> in_string sep c = false /\ in_string sep x = false.
Proof.
  unfold split_all. destruct (String.length s) as [|m] eqn:L.
  - rewrite split_0. discriminate.
  - intro H. apply split_S_inv in H as [Hc [[[=] _]|(t & -> & H)]].
    split; [exact Hc|]. destruct m as [|m].
    + rewrite length_append in L. cbn in L.
      destruct t; [now injection H as ->|cbn in L; lia].
    + symmetry in H. now apply split_S_inv in H as [Hx _].
Qed.

Lemma posix_joinpath_plain (root : Path) (comps : list string) (n : nat)
  (s : string) :
  in_string "/" s = false -> plain_components n comps ->
  exists comps', posix_joinpath (root ++ comps) s = root ++ comps'
                 /\ plain_components (S n) comps'.
Proof.
  intros Hs [Hl Hf]. unfold posix_joinpath. destruct (_ || _).
  - exists comps. split; [reflexivity|]. split; [lia|exact Hf].
  - exists (comps ++ [s]). rewrite app_assoc. split; [reflexivity|].
    split; [rewrite length_app; cbn; lia|].
    apply Forall_app. split; [exact Hf|]. now constructor.
Qed.

Section WorkerPaths.

Variable magic : bytes -> string.
Variable file_system : fs_op -> option fault.

(** X9.  On linux and darwin, where a path is a POSIX path: whatever the
    URL and the content type of a record, and whatever the file system
    accepts, the path of the file a worker writes for a cache file (whose
    name holds no ['/']) is the output root followed by at most four
    components, none of which holds a ['/']: neither the domain nor the
    kind taken from the URL can name a deeper path.  A component can
    still be [".."].  (On win32 a backslash separates components as well
    and a drive replaces the path; the property is not stated there.) *)
Theorem X9_written_path_is_shallow :
  forall (all_files : bool) (root : Path) (f : entry) (p : Path)
         (data : bytes),
  in_string "/" (name f) = false ->
  In (p, data)
     (written (fst (create_file_from_cache_file magic file_system
                      posix_joinpath all_files root f))) ->
  exists comps, p = root ++ comps /\ plain_components 4 comps.
Proof.
  intros all_files root f p data Hn Hin.
  unfold create_file_from_cache_file in Hin.
  destruct (open_and_parse_cache_file magic f)
    as [[[[raw_data domain] kind] mime_type]|e] eqn:P;
    [|destruct (isinstance e _); contradiction].
  destruct (split_all "/" mime_type) as [|c [|x [|y l]]] eqn:S;
    try contradiction.
  destruct (negb (String.eqb c "image") && negb all_files); [contradiction|].
  cbv zeta in Hin.
  match type of Hin with
  | context [perform file_system [Mkdir ?d; Touch ?q; WriteBytes ?q ?z]] =>
    destruct (perform_three file_system d q z)
      as [(_ & _ & _ & E)|(g & _ & W & _)];
      destruct (perform file_system [Mkdir d; Touch q; WriteBytes q z])
        as [done r]; cbn [fst snd] in *
  end;
    [|rewrite W in Hin; contradiction].
  injection E as -> ->. cbn [written In] in Hin.
  destruct Hin as [[= <- _]|[]].
  apply split_all_two in S as [Hc Hx].
  unfold open_and_parse_cache_file in P.
  destruct (contents f) as [bytes_of_f|]; [|discriminate].
  apply parse_cache_file_components in P as [Hd Hk].
  assert (Hfile : in_string "/" (name f ++ String "." x) = false)
    by (rewrite in_string_append, Hn; cbn; exact Hx).
  assert (P0 : plain_components 0 []) by (split; [cbn; lia|constructor]).
  destruct (posix_joinpath_plain root [] 0 c Hc P0) as (c1 & E1 & P1).
  rewrite app_nil_r in E1. rewrite E1.
  destruct kind as [k|]; cbn beta iota zeta.
  - destruct (posix_joinpath_plain root c1 1 k (Hk k eq_refl) P1)
      as (c2 & -> & P2).
    destruct (posix_joinpath_plain root c2 2 _ Hfile P2)
      as (c3 & -> & [L3 F3]).
    exists c3. split; [reflexivity|]. split; [lia|exact F3].
  - destruct (posix_joinpath_plain root c1 1 "other" eq_refl P1)
      as (c2 & -> & P2).
    destruct (posix_joinpath_plain root c2 2 domain Hd P2) as (c3 & -> & P3).
    destruct (posix_joinpath_plain root c3 3 _ Hfile P3) as (c4 & -> & P4).
    now exists c4.
Qed.

End WorkerPaths.

(** ** Runs and the order of completion *)

Lemma collect_perm {A} (l1 l2 : list (result A)) :
  Permutation l1 l2 ->
  match collect l1, collect l2 with
  | Ok a, Ok b => Permutation a b
  | Raise _, Raise _ => True
  | _, _ => False
  end.
Proof.
  induction 1 as [|x l l' _ IH|x y l|l l' l'' _ IH1 _ IH2].
  - apply perm_nil.
  - cbn [collect]. destruct x as [a|e]; cbn [bind]; [|exact I].
    destruct (collect l), (collect l'); cbn [bind]; auto.
  - cbn [collect]. destruct x as [a|e], y as [b|e']; cbn [bind]; try exact I.
    destruct (collect l); cbn [bind]; [apply perm_swap|exact I].
  - destruct (collect l), (collect l'), (collect l''); try contradiction;
      try exact I. eapply perm_trans; eassumption.
Qed.

Lemma Permutation_concat {A} (l1 l2 : list (list A)) :
  Permutation l1 l2 -> Permutation (List.concat l1) (List.concat l2).
Proof.
  induction 1 as [|x l l' _ IH|x y l|l l' l'' _ IH1 _ IH2]; cbn [List.concat].
  - apply perm_nil.
  - now apply Permutation_app_head.
  - rewrite !app_assoc. apply Permutation_app_tail, Permutation_app_comm.
  - eapply perm_trans; eassumption.
Qed.

Lemma written_app (a b : list fs_op) : written (a ++ b) = written a ++ written b.
Proof.
  induction a as [|[p|p|p d] a IH]; cbn [app written]; [reflexivity| | |];
    now rewrite IH.
Qed.

Lemma written_perm (a b : list fs_op) :
  Permutation a b -> Permutation (written a) (written b).
Proof.
  induction 1 as [|x l l' _ IH|x y l|l l' l'' _ IH1 _ IH2].
  - apply perm_nil.
  - destruct x; cbn [written]; [exact IH|exact IH|now apply perm_skip].
  - destruct x, y; cbn [written]; try apply Permutation_refl.
    apply perm_swap.
  - eapply perm_trans; eassumption.
Qed.

Section RunOrder.

Variable magic : bytes -> string.
Variable file_system : fs_op -> option fault.
Variable joinpath : Path -> string -> Path.

(** X13.  Two orders of completion of the same files give the same run:
    both raise, or both end normally with the same statistics and the same
    files written with the same bytes. *)
Theorem X13_run_ignores_completion_order :
  forall (all_files : bool) (root : Path)
         (files completed1 completed2 : list entry),
  Permutation completed1 completed2 ->
  match process_all_files magic file_system joinpath all_files root files
          completed1,
        process_all_files magic file_system joinpath all_files root files
          completed2 with
  | Ok r1, Ok r2 =>
    files_count r1 = files_count r2
    /\ stats_eq (final r1) (final r2)
    /\ Permutation (written (effects r1)) (written (effects r2))
  | Raise _, Raise _ => True
  | _, _ => False
  end.
Proof.
  intros all_files root files c1 c2 H. unfold process_all_files.
  set (worker := create_file_from_cache_file magic file_system joinpath
                   all_files root).
  assert (T : Permutation (map worker c1) (map worker c2))
    by now apply Permutation_map.
  pose proof (collect_perm _ _ (Permutation_map snd T)) as C.
  destruct (collect (map snd (map worker c1))) as [v1|e1],
           (collect (map snd (map worker c2))) as [v2|e2];
    cbn [bind]; try exact C.
  cbn [files_count final effects]. split; [reflexivity|]. split.
  - unfold aggregate. apply consume_from_perm; [exact C|apply stats_eq_refl].
  - apply written_perm, Permutation_concat, Permutation_map, T.
Qed.

(** X14.  The two numbers of the closing report, for a run that ends
    normally.  The first, [files_count - sorted_count], is the number of
    entries that are not regular files plus the number of files counted
    under [None].  The second, [files_count - index], is the whole listing
    when no file was handled, and otherwise one more than the number of
    entries that are not regular files, since [index] stops at the last
    position and not at the count. *)
Theorem X14_numbers_of_the_report :
  forall (all_files : bool) (root : Path) (files completed : list entry)
         (r : run),
  completion_of files completed ->
  process_all_files magic file_system joinpath all_files root files completed
  = Ok r ->
  let not_regular :=
    List.length (filter (fun e => negb (is_file e)) files) in
  not_exported r
  = (Z.of_nat not_regular + Z.of_nat (dict_item (types (final r)) None))%Z
  /\ ignored r
     = match completed with
       | [] => Z.of_nat (List.length files)
       | _ :: _ => (Z.of_nat not_regular + 1)%Z
       end.
Proof.
  intros all_files root files completed r Hc H. cbn zeta.
  apply Permutation_length in Hc.
  pose proof (filter_length is_file files) as F.
  unfold process_all_files in H.
  destruct (collect _) as [results|e] eqn:C; [|discriminate].
  cbn [bind] in H. injection H as <-.
  destruct (workers_add_up magic file_system joinpath all_files root
              completed results C) as (L & _ & _).
  pose proof (sorted_count_consume_from results initial_stats 0) as S.
  unfold not_exported, ignored, aggregate. cbn [files_count final].
  rewrite consume_from_types, dict_item_fold, loop_index_consume_from.
  cbn [initial_stats sorted_count types loop_index dict_item dict_get] in *.
  split; [lia|].
  destruct completed, results; cbn [List.length] in *; try discriminate; lia.
Qed.

End RunOrder.

(** ** The [all_files] switch *)

Section AllFiles.

Variable magic : bytes -> string.
Variable file_system : fs_op -> option fault.
Variable joinpath : Path -> string -> Path.

(** File by file, [all_files] changes nothing, or turns a file that was
    passed over into an export, which the file system lets through or
    refuses. *)
Lemma worker_all_files (root : Path) (f : entry) :
  let w0 := create_file_from_cache_file magic file_system joinpath false
              root f in
  let w1 := create_file_from_cache_file magic file_system joinpath true
              root f in
  w0 = w1
  \/ (w0 = ([], Ok (None, None))
      /\ ((exists dir p data domain mime_type,
             w1 = ([Mkdir dir; Touch p; WriteBytes p data],
                   Ok (Some domain, Some mime_type)))
          \/ (exists e, refusal file_system e /\ snd w1 = Raise e))).
Proof.
  cbn zeta. unfold create_file_from_cache_file.
  destruct (open_and_parse_cache_file magic f)
    as [[[[raw_data domain] kind] mime_type]|e]; [|now left].
  destruct (split_all "/" mime_type) as [|c [|x [|y l]]]; try now left.
  destruct (String.eqb c "image"); cbn [negb andb]; [now left|].
  right. split; [reflexivity|]. cbv zeta.
  match goal with
  | |- context [perform file_system [Mkdir ?d; Touch ?p; WriteBytes ?p ?z]] =>
    destruct (perform_three file_system d p z)
      as [(_ & _ & _ & E)|(g & R & _ & F)];
      destruct (perform file_system [Mkdir d; Touch p; WriteBytes p z])
        as [done r]; cbn [fst snd] in *
  end.
  - injection E as -> ->. left. now eexists _, _, _, _, _.
  - subst r. right. exists (exn_of_fault g). split; [|reflexivity].
    destruct F as [F|[F|F]]; (eexists _, g; split; [exact F|reflexivity]).
Qed.

(** X15.  What turning [all_files] on can change.  A run that raises
    without it raises with it; a run that ends normally with it ends
    normally without it, and then every file written without the switch
    is written with it, to the same path and with the same bytes, and
    [sorted_count] can only grow.  The exception of the run with the
    switch is the one of the run without it, or it comes from the file
    system refusing an operation; so a run that ends normally without
    the switch can raise with it, and only in that way. *)
Theorem X15_all_files_only_adds :
  forall (root : Path) (files completed : list entry),
  match process_all_files magic file_system joinpath false root files
          completed,
        process_all_files magic file_system joinpath true root files
          completed with
  | Ok r0, Ok r1 =>
    incl (written (effects r0)) (written (effects r1))
    /\ sorted_count (final r0) <= sorted_count (final r1)
  | Raise e0, Raise e1 => e1 = e0 \/ refusal file_system e1
  | Raise _, Ok _ => False
  | Ok _, Raise e1 => refusal file_system e1
  end.
Proof.
  intros root files completed. unfold process_all_files.
  set (w0 := create_file_from_cache_file magic file_system joinpath false
               root).
  set (w1 := create_file_from_cache_file magic file_system joinpath true
               root).
  assert (G :
    match collect (map snd (map w0 completed)),
          collect (map snd (map w1 completed)) with
    | Ok v0, Ok v1 =>
      incl (written (List.concat (map fst (map w0 completed))))
           (written (List.concat (map fst (map w1 completed))))
      /\ List.length v0 = List.length v1
      /\ count_key None (map snd v1) <= count_key None (map snd v0)
    | Raise e0, Raise e1 => e1 = e0 \/ refusal file_system e1
    | Raise _, Ok _ => False
    | Ok _, Raise e1 => refusal file_system e1
    end).
  { induction completed as [|f rest IH]; cbn [map collect List.concat].
    - repeat split; auto. apply incl_refl.
    - pose proof (worker_all_files root f) as D. cbn zeta in D.
      fold (w0 f) in D. fold (w1 f) in D.
      destruct D as [E|[E [(dir & p & data & d & m & E')|(e & R & E')]]];
        rewrite ?E, ?E'; cbn [fst snd bind app].
      + destruct (snd (w1 f)) as [v|e]; cbn [bind]; [|now left].
        destruct (collect (map snd (map w0 rest))),
                 (collect (map snd (map w1 rest))); cbn [bind];
          try exact IH.
        destruct IH as (I & L & K). rewrite !written_app.
        cbn [List.length map snd count_key]. repeat split; [|lia|lia].
        apply incl_app_app; [apply incl_refl|exact I].
      + destruct (collect (map snd (map w0 rest))),
                 (collect (map snd (map w1 rest))); cbn [bind];
          try exact IH.
        destruct IH as (I & L & K).
        cbn [written List.length map snd count_key key_eqb].
        repeat split; [|lia|lia]. now apply incl_tl.
      + destruct (collect (map snd (map w0 rest))); cbn [bind];
          [exact R|now right]. }
  destruct (collect (map snd (map w0 completed))) as [v0|e0],
           (collect (map snd (map w1 completed))) as [v1|e1];
    cbn [bind]; try exact G.
  destruct G as (I & L & K). cbn [effects final]. split; [exact I|].
  pose proof (sorted_count_consume_from v0 initial_stats 0).
  pose proof (sorted_count_consume_from v1 initial_stats 0).
  unfold aggregate. lia.
Qed.

End AllFiles.




(** ** The entry point *)

(** Where the cache directory is looked for: on the three known platforms
    only, and only when the home directory is known. *)
Lemma autodetection (h : Main.host) :
  (forall e, Main.get_discord_cache_directory h = Raise e
             <-> Main.home h = Raise e)
  /\ (Main.get_discord_cache_directory h = Ok None
      <-> (exists home, Main.home h = Ok home)
          /\ ~ In (Main.platform h) ["win32"; "linux"; "darwin"]%string).
Proof.
  unfold Main.get_discord_cache_directory.
  destruct (Main.home h) as [home|e0]; cbn [bind].
  - destruct (String.eqb_spec (Main.platform h) "win32") as [E|N1];
      [|destruct (String.eqb_spec (Main.platform h) "linux") as [E|N2];
        [|destruct (String.eqb_spec (Main.platform h) "darwin") as [E|N3]]].
    1-3: split; [intro e; split; discriminate|];
         split; [discriminate|intros [_ C]; exfalso; apply C; rewrite E;
                              cbn; auto].
    split; [intro e; split; discriminate|].
    split; [|reflexivity]. intros _.
    split; [now exists home|intros [C|[C|[C|[]]]]; congruence].
  - split; [intro e; split; intros [= ->]; reflexivity|].
    split; [discriminate|intros [[home C] _]; discriminate C].
Qed.

Section MainFacts.

Variable h : Main.host.

(** The four ways the second half of [main] can go. *)
Lemma main_with_cases (a : Main.args) (c : Path) :
  let call o :=
    Main.call_process_all_files h c o (Main.cpu a) (Main.all_files a)
      (Main.stats a) (Main.silent a) in
  let event o :=
    Main.ProcessAllFiles c o (Main.cpu a) (Main.all_files a) (Main.stats a)
      (Main.silent a) in
  (exists o,
     Main.out_dir a = Some o
     /\ Main.main_with h a c
        = ([Main.PrintUsingCacheFolder c; event o], _ <- call o ;; Ok None))
  \/ (Main.out_dir a = None
      /\ exists e,
           Main.cwd h = Raise e
           /\ Main.main_with h a c
              = ([Main.PrintUsingCacheFolder c], Raise e))
  \/ (Main.out_dir a = None
      /\ exists cwd f,
           Main.cwd h = Ok cwd
           /\ Main.mkdir_exist_ok h (Main.joinpath h cwd "newmonkey_output")
              = Some f
           /\ Main.main_with h a c
              = ([Main.PrintUsingCacheFolder c], Raise (exn_of_fault f)))
  \/ (Main.out_dir a = None
      /\ exists cwd,
           Main.cwd h = Ok cwd
           /\ Main.mkdir_exist_ok h (Main.joinpath h cwd "newmonkey_output")
              = None
           /\ Main.main_with h a c
              = ([Main.PrintUsingCacheFolder c;
                  Main.MkdirExistOk (Main.joinpath h cwd "newmonkey_output");
                  Main.PrintUsingOutputDirectory
                    (Main.joinpath h cwd "newmonkey_output");
                  event (Main.joinpath h cwd "newmonkey_output")],
                 _ <- call (Main.joinpath h cwd "newmonkey_output") ;;
                 Ok None)).
Proof.
  cbn zeta. unfold Main.main_with, Main.main_call.
  destruct (Main.out_dir a) as [o|]; [left; now exists o|right].
  destruct (Main.cwd h) as [cwd|e]; [|left; split; [reflexivity|now exists e]].
  right.
  destruct (Main.mkdir_exist_ok h _) as [f|] eqn:M.
  - left. split; [reflexivity|]. now exists cwd, f.
  - right. split; [reflexivity|]. now exists cwd.
Qed.

(** What the second half of [main] does, once the cache directory [c0] is
    chosen. *)
Lemma main_with_spec (a : Main.args) (c0 : Path) :
  let events := fst (Main.main_with h a c0) in
  let outcome := snd (Main.main_with h a c0) in
  outcome <> Ok (Some 1)
  /\ (forall c o n af st si,
        In (Main.ProcessAllFiles c o n af st si) events ->
        c = c0
        /\ (Main.out_dir a = Some o
            \/ Main.out_dir a = None
               /\ (exists cwd,
                     Main.cwd h = Ok cwd
                     /\ o = Main.joinpath h cwd "newmonkey_output")
               /\ Main.mkdir_exist_ok h o = None
               /\ In (Main.MkdirExistOk o) events)
        /\ (n, af, st, si)
           = (Main.cpu a, Main.all_files a, Main.stats a, Main.silent a)
        /\ outcome
           = (_ <- Main.call_process_all_files h c o n af st si ;; Ok None)
        /\ exists before,
             events = before ++ [Main.ProcessAllFiles c o n af st si]
             /\ forall c' o' n' af' st' si',
                  ~ In (Main.ProcessAllFiles c' o' n' af' st' si') before)
  /\ ((forall c o n af st si,
         ~ In (Main.ProcessAllFiles c o n af st si) events) ->
      Main.out_dir a = None
      /\ exists e,
           outcome = Raise e
           /\ (Main.cwd h = Raise e
               \/ exists cwd f,
                    Main.cwd h = Ok cwd
                    /\ Main.mkdir_exist_ok h
                         (Main.joinpath h cwd "newmonkey_output") = Some f
                    /\ e = exn_of_fault f))
  /\ (forall p, In (Main.MkdirExistOk p) events -> Main.out_dir a = None).
Proof.
  cbn zeta.
  destruct (main_with_cases a c0)
    as [(o & O & ->)|[(O & e & C & ->)|[(O & cwd & f & C & M & ->)
                                       |(O & cwd & C & M & ->)]]];
    cbn [fst snd].
  - split; [destruct (Main.call_process_all_files _ _ _ _ _ _ _);
            discriminate|].
    split; [|split].
    + intros c o' n af st si [D|[D|[]]]; [discriminate D|].
      injection D as <- <- <- <- <- <-.
      split; [reflexivity|]. split; [now left|].
      split; [reflexivity|]. split; [reflexivity|].
      exists [Main.PrintUsingCacheFolder c0]. split; [reflexivity|].
      intros c' o' n' af' st' si' [D|[]]. discriminate D.
    + intro N. exfalso. eapply N. right. left. reflexivity.
    + intros p [D|[D|[]]]; discriminate D.
  - split; [discriminate|]. split; [|split].
    + intros c o n af st si [D|[]]. discriminate D.
    + intros _. split; [exact O|]. exists e. auto.
    + intros p [D|[]]. discriminate D.
  - split; [discriminate|]. split; [|split].
    + intros c o n af st si [D|[]]. discriminate D.
    + intros _. split; [exact O|]. exists (exn_of_fault f).
      split; [reflexivity|]. right. now exists cwd, f.
    + intros p [D|[]]. discriminate D.
  - split; [destruct (Main.call_process_all_files _ _ _ _ _ _ _);
            discriminate|].
    split; [|split].
    + intros c o n af st si [D|[D|[D|[D|[]]]]]; try discriminate D.
      injection D as <- <- <- <- <- <-.
      split; [reflexivity|]. split.
      { right. split; [exact O|]. split; [now exists cwd|].
        split; [exact M|]. right. left. reflexivity. }
      split; [reflexivity|]. split; [reflexivity|].
      eexists [_; _; _]. split; [reflexivity|].
      intros c' o' n' af' st' si' [D|[D|[D|[]]]]; discriminate D.
    + intro N. exfalso. eapply N. do 3 right. left. reflexivity.
    + intros _ _. exact O.
Qed.

(** X16.  When [parse_args] leaves with [SystemExit], so does [main],
    having done nothing.  Otherwise, with the command line it returns:
    [main] gives up, returning 1 after one message and with nothing
    created and nothing processed, exactly when no cache directory is
    given, the home directory is known, and either none is found for the
    platform or the one found is seen not to exist.
    [process_all_files] is called at most once, as the last thing [main]
    does: on the given cache directory (which is not checked to exist) or
    else the one found, with the given output directory or else
    [cwd/newmonkey_output], which [main] has then created, and with the
    flags of the command line; the outcome of [main] is then the outcome
    of that call: [None] when it returns, and the exception it raises
    when it raises.  When [process_all_files] is not called and [main]
    does not give up, [main] raises: what [Path.home()], [Path.exists],
    [Path.cwd()] or the [mkdir] of the default output directory raised.
    [main] creates a directory only when no output directory is given. *)
Theorem X16_main_outcomes :
  let events := fst (Main.main h) in
  let outcome := snd (Main.main h) in
  let found := Main.get_discord_cache_directory h in
  (forall e, Main.parse_args h = Raise e -> events = [] /\ outcome = Raise e)
  /\ forall a, Main.parse_args h = Ok a ->
     let gives_up :=
       Main.discord_cache_dir a = None
       /\ (found = Ok None
           \/ exists d, found = Ok (Some d) /\ Main.exists_ h d = Ok false) in
     (outcome = Ok (Some 1) <-> gives_up)
     /\ (gives_up ->
         events = [Main.PrintNotSupported]
         \/ events = [Main.PrintAutodetectionFailed])
     /\ (forall c o n af st si,
           In (Main.ProcessAllFiles c o n af st si) events ->
           (Main.discord_cache_dir a = Some c
            \/ Main.discord_cache_dir a = None
               /\ found = Ok (Some c) /\ Main.exists_ h c = Ok true)
           /\ (Main.out_dir a = Some o
               \/ Main.out_dir a = None
                  /\ (exists cwd,
                        Main.cwd h = Ok cwd
                        /\ o = Main.joinpath h cwd "newmonkey_output")
                  /\ Main.mkdir_exist_ok h o = None
                  /\ In (Main.MkdirExistOk o) events)
           /\ (n, af, st, si)
              = (Main.cpu a, Main.all_files a, Main.stats a, Main.silent a)
           /\ outcome
              = (_ <- Main.call_process_all_files h c o n af st si ;;
                 Ok None)
           /\ exists before,
                events = before ++ [Main.ProcessAllFiles c o n af st si]
                /\ forall c' o' n' af' st' si',
                     ~ In (Main.ProcessAllFiles c' o' n' af' st' si') before)
     /\ ((forall c o n af st si,
            ~ In (Main.ProcessAllFiles c o n af st si) events) ->
         gives_up
         \/ exists e,
              outcome = Raise e
              /\ (Main.discord_cache_dir a = None
                  /\ (Main.home h = Raise e
                      \/ exists d, found = Ok (Some d)
                                   /\ Main.exists_ h d = Raise e)
                  \/ Main.out_dir a = None
                     /\ (Main.cwd h = Raise e
                         \/ exists cwd f,
                              Main.cwd h = Ok cwd
                              /\ Main.mkdir_exist_ok h
                                   (Main.joinpath h cwd "newmonkey_output")
                                 = Some f
                              /\ e = exn_of_fault f)))
     /\ (forall p, In (Main.MkdirExistOk p) events -> Main.out_dir a = None).
Proof.
  cbn zeta. unfold Main.main. split.
  { intros e P. rewrite P. now split. }
  intros a P. rewrite P. unfold Main.main_parsed.
  destruct (Main.discord_cache_dir a) as [c0|].
  - destruct (main_with_spec a c0) as (S1 & S2 & S3 & S4).
    split; [split; [intro C; now apply S1 in C|intros [C _]; discriminate C]|].
    split; [intros [C _]; discriminate C|].
    split; [|split; [|exact S4]].
    + intros c o n af st si I.
      destruct (S2 c o n af st si I) as (-> & R). split; [now left|exact R].
    + intro N. right. destruct (S3 N) as (O & e & E & R).
      exists e. split; [exact E|]. right. now split.
  - destruct (Main.get_discord_cache_directory h) as [[c0|]|e] eqn:F.
    + destruct (Main.exists_ h c0) as [[|]|e] eqn:X.
      * destruct (main_with_spec a c0) as (S1 & S2 & S3 & S4).
        assert (G : ~ (@None Path = None
                       /\ (Ok (Some c0) = Ok None
                           \/ exists d, Ok (Some c0) = Ok (Some d)
                                        /\ Main.exists_ h d = Ok false))).
        { intros [_ [C|(d & [= <-] & C)]]; congruence. }
        split; [split; [intro C; now apply S1 in C|intro C; now apply G in C]|].
        split; [intro C; now apply G in C|].
        split; [|split; [|exact S4]].
        -- intros c o n af st si I.
           destruct (S2 c o n af st si I) as (-> & R).
           split; [right; auto|exact R].
        -- intro N. right. destruct (S3 N) as (O & e & E & R).
           exists e. split; [exact E|]. right. now split.
      * cbn [fst snd].
        assert (G : @None Path = None
                    /\ (Ok (Some c0) = Ok None
                        \/ exists d, Ok (Some c0) = Ok (Some d)
                                     /\ Main.exists_ h d = Ok false))
          by (split; [reflexivity|right; now exists c0]).
        split; [split; auto|]. split; [now right|].
        split; [|split; [now left|]].
        -- intros c o n af st si [D|[]]. discriminate D.
        -- intros p [D|[]]. discriminate D.
      * cbn [fst snd].
        assert (G : ~ (@None Path = None
                       /\ (Ok (Some c0) = Ok None
                           \/ exists d, Ok (Some c0) = Ok (Some d)
                                        /\ Main.exists_ h d = Ok false))).
        { intros [_ [C|(d & [= <-] & C)]]; congruence. }
        split; [split; [discriminate|intro C; now apply G in C]|].
        split; [intro C; now apply G in C|].
        split; [|split].
        -- intros c o n af st si [].
        -- intros _. right. exists e. split; [reflexivity|]. left.
           split; [reflexivity|]. right. now exists c0.
        -- intros p [].
    + cbn [fst snd].
      assert (G : @None Path = None
                  /\ (@Ok (option Path) None = Ok None
                      \/ exists d, Ok None = Ok (Some d)
                                   /\ Main.exists_ h d = Ok false))
        by (split; [reflexivity|now left]).
      split; [split; auto|]. split; [now left|].
      split; [|split; [now left|]].
      * intros c o n af st si [D|[]]. discriminate D.
      * intros p [D|[]]. discriminate D.
    + cbn [fst snd]. apply (proj1 (autodetection h)) in F.
      assert (G : ~ (@None Path = None
                     /\ (@Raise (option Path) e = Ok None
                         \/ exists d, Raise e = Ok (Some d)
                                      /\ Main.exists_ h d = Ok false))).
      { intros [_ [C|(d & C & _)]]; discriminate C. }
      split; [split; [discriminate|intro C; now apply G in C]|].
      split; [intro C; now apply G in C|].
      split; [|split].
      * intros c o n af st si [].
      * intros _. right. exists e. split; [reflexivity|]. left.
        split; [reflexivity|]. now left.
      * intros p [].
Qed.

End MainFacts.

(** ** The further properties on the sample data *)

Section FurtherSampleData.

Notation "p // s" := (posix_joinpath p s) (at level 40, left associativity).

Lemma X1_witness :
  exists rest,
    rest <> []
    /\ record attachment_url png_bytes [x00]
       = take 78 (record attachment_url png_bytes [x00])
         ++ png_bytes ++ END_SUFFIX ++ rest
    /\ len (take 78 (record attachment_url png_bytes [x00])) = 78%N.
Proof.
  apply (X1_decoded_buffer_layout toy_magic
           (record attachment_url png_bytes [x00]) png_bytes
           "cdn.discordapp.com" (Some "attachments"%string) "image/png").
  vm_compute. reflexivity.
Defined.

Lemma X2_witness : bytes_in END_SUFFIX png_bytes = false.
Proof.
  apply (X2_payload_holds_no_end_marker toy_magic
           (record attachment_url (png_bytes ++ END_SUFFIX ++ [x00]) [])
           png_bytes "cdn.discordapp.com" (Some "attachments"%string)
           "image/png").
  vm_compute. reflexivity.
Defined.

Lemma X6_witness :
  parse_cache_file toy_magic
    (record attachment_url png_bytes [x00] ++ html_bytes)
  = Ok (png_bytes, "cdn.discordapp.com"%string, Some "attachments"%string,
        "image/png"%string).
Proof.
  apply X6_trailing_bytes_are_not_read. vm_compute. reflexivity.
Defined.

(** The bound of X7 is reached: 43 bytes, the URL [///], no payload. *)
Lemma X7_witness :
  (43 + len (@nil byte) <= len (record "///" [] [x00]))%N
  /\ len (record "///" [] [x00]) = 43%N.
Proof.
  split; [|reflexivity].
  apply (X7_shortest_record toy_magic (record "///" [] [x00]) []
           EmptyString None "application/octet-stream").
  vm_compute. reflexivity.
Defined.

Lemma X9_witness :
  exists comps,
    out_root // "image" // "other" // "media.tenor.com" // "f_0001.png"
    = out_root ++ comps
    /\ plain_components 4 comps.
Proof.
  apply (X9_written_path_is_shallow toy_magic strict false out_root png_file
           _ png_bytes).
  - reflexivity.
  - vm_compute. left. reflexivity.
Defined.

Lemma X12_witness :
  exists r,
    process_all_files toy_magic accepting posix_joinpath false out_root
      three_files three_files = Ok r
    /\ List.length (written (effects r)) = sorted_count (final r)
    /\ dict_item (types (final r)) None = dict_item (domains (final r)) None
    /\ sorted_count (final r) + dict_item (types (final r)) None = 3.
Proof.
  eexists. split; [vm_compute; reflexivity|].
  apply (X12_counts_of_a_run toy_magic accepting posix_joinpath false
           out_root three_files three_files).
  vm_compute. reflexivity.
Defined.

Lemma X13_witness :
  match process_all_files toy_magic accepting posix_joinpath false out_root
          three_files three_files,
        process_all_files toy_magic accepting posix_joinpath false out_root
          three_files [bad_file; png_file; html_file] with
  | Ok r1, Ok r2 =>
    files_count r1 = files_count r2
    /\ stats_eq (final r1) (final r2)
    /\ Permutation (written (effects r1)) (written (effects r2))
  | Raise _, Raise _ => True
  | _, _ => False
  end.
Proof.
  apply X13_run_ignores_completion_order. apply Permutation_sym.
  exact (Permutation_cons_append [png_file; html_file] bad_file).
Defined.

Lemma X14_witness :
  exists r,
    process_all_files toy_magic accepting posix_joinpath false out_root
      (Entry "index" false None :: three_files) three_files = Ok r
    /\ not_exported r = 3%Z
    /\ ignored r = 2%Z.
Proof.
  eexists. split; [vm_compute; reflexivity|].
  apply (X14_numbers_of_the_report toy_magic accepting posix_joinpath false
           out_root (Entry "index" false None :: three_files) three_files).
  - apply Permutation_refl.
  - vm_compute. reflexivity.
Defined.

(** With [all_files] on, a run can raise where it ends normally without:
    the page is passed over without the switch, and the directory named
    after its host is refused with it. *)
Lemma all_files_can_raise_example :
  (exists r,
     process_all_files toy_magic strict posix_joinpath false out_root
       [nul_page_file] [nul_page_file] = Ok r)
  /\ process_all_files toy_magic strict posix_joinpath true out_root
       [nul_page_file] [nul_page_file]
     = Raise (ValueError EmbeddedNullByte).
Proof. split; [eexists|]; vm_compute; reflexivity. Qed.

End FurtherSampleData.
